(** * tealog editor: heading and checkbox decorations

    Shallow embedding of [frontend/src/features/editor/editor.ts]:
    the two view plugins that decorate ATX headings and task-list checkboxes
    on every line but the active one, the checkbox widget's toggle handler,
    and the component's export action.

    JavaScript strings are sequences of UTF-16 code units, document offsets
    are non-negative integers.  The editing engine (document, line lookup,
    range-set builder, change dispatch) is an external collaborator; it is
    modelled here by the few operations the source calls on it, the
    builder with the check it makes on the order of the calls. *)

From Stdlib Require Import String Ascii DecimalString.
From Stdlib Require Import List Arith NArith ZArith Bool Lia Sorted.
Import ListNotations.

Set Implicit Arguments.

(* ================================================================= *)
(** ** Strings *)

(** A UTF-16 code unit. *)
Definition char := N.

(** A JavaScript string. *)
Definition str := list char.

Module Js.

(** A string literal of the source, as code units. *)
Definition lit (s : string) : str :=
  map N_of_ascii (list_ascii_of_string s).

Definition chr (a : ascii) : char := N_of_ascii a.

Definition eqb (a b : str) : bool :=
  if list_eq_dec N.eq_dec a b then true else false.

(** [s.slice(i, j)] for [0 <= i <= j]. *)
Definition slice (s : str) (i j : nat) : str := firstn (j - i) (skipn i s).

(** [s.indexOf(c)] for a one-character needle; [None] stands for [-1]. *)
Fixpoint indexOf (c : char) (s : str) : option nat :=
  match s with
  | [] => None
  | d :: s' =>
      if N.eqb d c then Some 0
      else match indexOf c s' with
           | Some i => Some (S i)
           | None => None
           end
  end.

(** [s.toLowerCase()] on one code unit.  The only strings the source
    lowers are the one-character group [( |x|X)]; the mapping is the
    ASCII one and leaves every other code unit as it is. *)
Definition lowerChar (c : char) : char :=
  if (N.leb 65 c && N.leb c 90)%bool then (c + 32)%N else c.

Definition toLowerCase (s : str) : str := map lowerChar s.

(** [String(n)] for a non-negative integer, as in a template literal. *)
Definition ofNat (n : nat) : str :=
  lit (NilZero.string_of_uint (Nat.to_uint n)).

End Js.

(* ================================================================= *)
(** ** Regular expressions

  Both patterns of the source are start-anchored sequences of quantified
  one-character classes, so that is the fragment embedded: the matcher is
  a greedy backtracking one, as the engine's is. *)

Module Regex.

Inductive CharClass :=
| Lit (c : char)          (* a literal character *)
| Space                   (* \s *)
| Dot                     (* .  (no s flag) *)
| Alt (cs : list char).   (* (a|b|c) over single characters *)

(** ECMAScript WhiteSpace and LineTerminator code points. *)
Definition isSpace (c : char) : bool :=
  ((N.leb 9 c && N.leb c 13) || N.eqb c 32 || N.eqb c 160 || N.eqb c 5760
   || (N.leb 8192 c && N.leb c 8202) || N.eqb c 8232 || N.eqb c 8233
   || N.eqb c 8239 || N.eqb c 8287 || N.eqb c 12288 || N.eqb c 65279)%bool.

Definition isLineTerminator (c : char) : bool :=
  (N.eqb c 10 || N.eqb c 13 || N.eqb c 8232 || N.eqb c 8233)%bool.

Definition inClass (k : CharClass) (c : char) : bool :=
  match k with
  | Lit d => N.eqb c d
  | Space => isSpace c
  | Dot => negb (isLineTerminator c)
  | Alt cs => existsb (N.eqb c) cs
  end.

(** A class with its quantifier [{lo,hi}] ([hi = None]: unbounded) and
    whether it sits in a capturing group. *)
Record Atom := mkAtom {
  cls : CharClass;
  lo : nat;
  hi : option nat;
  captured : bool
}.

(** [^ atoms] with an optional final [$]. *)
Record t := mk {
  atoms : list Atom;
  toEnd : bool
}.

(** Length of the longest prefix of [s] inside the class. *)
Fixpoint run (k : CharClass) (s : str) : nat :=
  match s with
  | c :: s' => if inClass k c then S (run k s') else 0
  | [] => 0
  end.

(** Try the continuation after [n] characters, then after [n-1], ...
    down to [lo]. *)
Fixpoint backtrack (A : Type) (cont : str -> option A) (s : str)
         (lo n : nat) : option (nat * A) :=
  if n <? lo then None
  else match cont (skipn n s) with
       | Some r => Some (n, r)
       | None =>
           match n with
           | 0 => None
           | S n' => backtrack cont s lo n'
           end
       end.

(** Where a greedy quantifier starts from: the whole run, cut at [hi]. *)
Definition reach (a : Atom) (s : str) : nat :=
  match hi a with
  | Some h => Nat.min h (run (cls a) s)
  | None => run (cls a) s
  end.

(** Length consumed and captured groups, in order. *)
Fixpoint matchAtoms (ats : list Atom) (anchored : bool) (s : str)
  : option (nat * list str) :=
  match ats with
  | [] =>
      if anchored
      then match s with [] => Some (0, []) | _ :: _ => None end
      else Some (0, [])
  | a :: rest =>
      let n := match hi a with
               | Some h => Nat.min h (run (cls a) s)
               | None => run (cls a) s
               end in
      match backtrack (matchAtoms rest anchored) s (lo a) n with
      | Some (k, (len, caps)) =>
          Some (k + len, if captured a then firstn k s :: caps else caps)
      | None => None
      end
  end.

(** [s.match(re)]: [None] for [null], else the array [m] with [m[0]] the
    matched text and [m[1]], ... the groups. *)
Definition exec (re : t) (s : str) : option (list str) :=
  match matchAtoms (atoms re) (toEnd re) s with
  | Some (len, caps) => Some (firstn len s :: caps)
  | None => None
  end.

(** [m[i]]. *)
Definition group (m : list str) (i : nat) : str := nth i m [].

(** The language of the pattern, independently of the matcher: the input
    splits into one block per atom, each inside its class and within its
    bounds. *)
Inductive Matches (anchored : bool)
  : list Atom -> str -> nat -> list str -> Prop :=
| Matches_nil s :
    (anchored = true -> s = []) -> Matches anchored [] s 0 []
| Matches_cons a rest s k len caps :
    k <= length s ->
    lo a <= k ->
    (forall h, hi a = Some h -> k <= h) ->
    forallb (inClass (cls a)) (firstn k s) = true ->
    Matches anchored rest (skipn k s) len caps ->
    Matches anchored (a :: rest) s (k + len)
            (if captured a then firstn k s :: caps else caps).

Definition InLanguage (re : t) (s : str) : Prop :=
  exists len caps, Matches (toEnd re) (atoms re) s len caps.

End Regex.

(* ================================================================= *)
(** ** The two patterns of the source *)

(** [/^(#{1,6})\s+(.{0,})$/], the star of the source's second group
    written as the bound it abbreviates. *)
Definition headingRe : Regex.t :=
  Regex.mk
    [ Regex.mkAtom (Regex.Lit (Js.chr "#"%char)) 1 (Some 6) true;
      Regex.mkAtom Regex.Space 1 None false;
      Regex.mkAtom Regex.Dot 0 None true ]
    true.

(** [/^\s*-\s*\[( |x|X)\]/] *)
Definition checkboxRe : Regex.t :=
  Regex.mk
    [ Regex.mkAtom Regex.Space 0 None false;
      Regex.mkAtom (Regex.Lit (Js.chr "-"%char)) 1 (Some 1) false;
      Regex.mkAtom Regex.Space 0 None false;
      Regex.mkAtom (Regex.Lit (Js.chr "["%char)) 1 (Some 1) false;
      Regex.mkAtom (Regex.Alt [Js.chr " "%char; Js.chr "x"%char; Js.chr "X"%char])
                   1 (Some 1) true;
      Regex.mkAtom (Regex.Lit (Js.chr "]"%char)) 1 (Some 1) false ]
    false.

(* ================================================================= *)
(** ** Results of code that can throw

    [RangeError] is what the document throws on an offset outside it;
    [OrderError] is the [Error] of the range-set builder, "Ranges must be
    added sorted by `from` position and `startSide`"; [OutOfFuel] is the
    model's own: a loop that was cut short. *)

Inductive outcome (A : Type) : Type :=
| Done (a : A)
| RangeError
| OrderError
| OutOfFuel.

Arguments Done {A} a.
Arguments RangeError {A}.
Arguments OrderError {A}.
Arguments OutOfFuel {A}.

Definition bind {A B : Type} (m : outcome A) (k : A -> outcome B)
  : outcome B :=
  match m with
  | Done a => k a
  | RangeError => RangeError
  | OrderError => OrderError
  | OutOfFuel => OutOfFuel
  end.

Notation "x <- m ;; k" := (bind m (fun x => k))
  (at level 61, m at next level, right associativity).

(* ================================================================= *)
(** ** The document *)

Module Doc.

(** The document text; line breaks are single ["\n"] code units. *)
Definition Text := str.

Definition newline : char := 10%N.

(** A line as the document hands it out: [from] and [to] are the offsets
    of its first character and of its end (before the line break),
    [number] counts from 1. *)
Record Line := mkLine {
  from : nat;
  to : nat;
  number : nat;
  text : str
}.

Fixpoint split (s : str) : list str :=
  match s with
  | [] => [[]]
  | c :: s' =>
      if N.eqb c newline then [] :: split s'
      else match split s' with
           | l :: ls => (c :: l) :: ls
           | [] => [[c]]
           end
  end.

Fixpoint linesFrom (ls : list str) (start num : nat) : list Line :=
  match ls with
  | [] => []
  | t :: rest =>
      mkLine start (start + length t) num t
        :: linesFrom rest (start + length t + 1) (S num)
  end.

Definition lines (doc : Text) : list Line := linesFrom (split doc) 0 1.

(** [doc.lineAt(pos)]; [None] is the [RangeError] for [pos > doc.length]. *)
Definition lineAt (doc : Text) (pos : nat) : option Line :=
  find (fun l => pos <=? to l) (lines doc).

(** [doc.toString()] *)
Definition toString (doc : Text) : str := doc.

(** [parts.join(sep)] *)
Fixpoint join (sep : str) (parts : list str) : str :=
  match parts with
  | [] => []
  | [p] => p
  | p :: rest => p ++ sep ++ join sep rest
  end.

End Doc.

(* ================================================================= *)
(** ** Widgets and decorations *)

(** The fields of [class CheckboxWidget]. *)
Record CheckboxWidget := mkCheckbox {
  checked : bool;
  wfrom : nat;
  wto : nat
}.

(** [CheckboxWidget.eq] *)
Definition CheckboxWidget_eq (this other : CheckboxWidget) : bool :=
  Bool.eqb (checked other) (checked this)
  && (wfrom other =? wfrom this)
  && (wto other =? wto this).

Inductive Widget :=
| HiddenMarker                       (* new HiddenMarkerWidget() *)
| Checkbox (w : CheckboxWidget).     (* new CheckboxWidget(..) *)

(** [ignoreEvent()] of either widget class. *)
Definition ignoreEvent (w : Widget) : bool :=
  match w with
  | HiddenMarker => true
  | Checkbox _ => false
  end.

Inductive Decoration :=
| Replace (widget : Widget)          (* Decoration.replace({ widget }) *)
| LineClass (class : str).           (* Decoration.line({ class }) *)

(** One [builder.add(from, to, value)]. *)
Record Range := mkRange {
  rfrom : nat;
  rto : nat;
  value : Decoration
}.

(** A decoration set, as the ranges that were added to it, in the order
    of the calls. *)
Definition DecorationSet := list Range.

(** The engine orders the ranges that start at one offset by the
    [startSide] of their values, and compares the [endSide] of a range with
    the [startSide] of one that starts where it ends.  A replacing
    decoration made without the [inclusive] options starts at side
    [5e8 - 1] and ends at side [-6e8 + 1]; a line decoration has side
    [-2e8] at both ends. *)
Definition startSide (v : Decoration) : Z :=
  match v with
  | Replace _ => 499999999
  | LineClass _ => -200000000
  end.

Definition endSide (v : Decoration) : Z :=
  match v with
  | Replace _ => -599999999
  | LineClass _ => -200000000
  end.

(** [a || b] on numbers. *)
Definition orElse (a b : Z) : Z := if Z.eqb a 0 then b else a.

(** [RangeSetBuilder.add] of the engine ([@codemirror/state]), which both
    builds call.  A builder is a chain of layers, [this] first, then
    [nextLayer] and so on; of a layer the check reads only the range
    added to it last ([lastFrom], [lastTo], [last]), and a layer without
    a range yet takes any range.  For a call [(from, to, value)] a layer
    computes [diff = from - lastTo || value.startSide - last.endSide];
    it throws if [diff <= 0] and
    [(from - lastFrom || value.startSide - last.startSide) < 0], that
    is, on a range that sorts before its last one by [from] and
    [startSide]; if [diff < 0] it hands the range to the next layer;
    otherwise it takes the range.  [None] is the throw. *)
Fixpoint addLayers (layers : list Range) (r : Range) : option (list Range) :=
  match layers with
  | [] => Some [r]
  | last :: next =>
      let diff :=
        orElse (Z.of_nat (rfrom r) - Z.of_nat (rto last))
               (startSide (value r) - endSide (value last)) in
      if (diff <=? 0)%Z
         && (orElse (Z.of_nat (rfrom r) - Z.of_nat (rfrom last))
                    (startSide (value r) - startSide (value last)) <? 0)%Z
      then None
      else if (diff <? 0)%Z
           then match addLayers next r with
                | Some next' => Some (last :: next')
                | None => None
                end
           else Some (r :: next)
  end.

(** The builder: the ranges it has taken, in the order of the calls, and
    the last range of each of its layers. *)
Record RangeSetBuilder := mkBuilder {
  added : list Range;
  layers : list Range
}.

Definition newBuilder : RangeSetBuilder := mkBuilder [] [].

Definition add (b : RangeSetBuilder) (f t : nat) (v : Decoration)
  : outcome RangeSetBuilder :=
  match addLayers (layers b) (mkRange f t v) with
  | Some ls => Done (mkBuilder (added b ++ [mkRange f t v]) ls)
  | None => OrderError
  end.

Definition finish (b : RangeSetBuilder) : DecorationSet := added b.

(* ================================================================= *)
(** ** The view *)

Record SelectionRange := mkSel {
  anchor : nat;
  head : nat
}.

Record EditorState := mkState {
  doc : Doc.Text;
  selection_main : SelectionRange
}.

Record VisibleRange := mkVisible {
  vfrom : nat;
  vto : nat
}.

(** What the source reads of an [EditorView], and what else of it the
    claims speak about: the focus and the decoration sets its plugins
    currently provide. *)
Record EditorView := mkView {
  state : EditorState;
  visibleRanges : list VisibleRange;
  hasFocus : bool;
  shown : list DecorationSet
}.

(** The visible ranges as a view hands them out: none is inverted, and
    none starts before an earlier one has ended. *)
Fixpoint ascending (rs : list VisibleRange) : bool :=
  match rs with
  | [] => true
  | r :: rest =>
      (vfrom r <=? vto r)
      && forallb (fun r' => vto r <=? vfrom r') rest
      && ascending rest
  end.

(** The view keeps its ranges and the selection head inside the document,
    and its ranges in ascending order. *)
Definition validView (v : EditorView) : bool :=
  (head (selection_main (state v)) <=? length (doc (state v)))
  && forallb (fun r => vto r <=? length (doc (state v))) (visibleRanges v)
  && ascending (visibleRanges v).

(* ================================================================= *)
(** ** Plugin: headings *)

(** [`md-h${level}`] *)
Definition headingClass (level : nat) : str :=
  Js.lit "md-h" ++ Js.ofNat level.

(** The [while (pos <= to)] loop of [build].  [fuel] bounds the number of
    iterations. *)
Fixpoint headingWhile (fuel : nat) (d : Doc.Text) (activeNumber : nat)
         (pos to : nat) (builder : RangeSetBuilder)
  : outcome RangeSetBuilder :=
  if pos <=? to then
    match fuel with
    | 0 => OutOfFuel
    | S fuel' =>
        match Doc.lineAt d pos with
        | None => RangeError
        | Some line =>
            if Doc.number line =? activeNumber then
              headingWhile fuel' d activeNumber (Doc.to line + 1) to builder
            else
              let text := Doc.text line in
              match Regex.exec headingRe text with
              | Some m =>
                  let level := length (Regex.group m 1) in
                  let markerLen := length (Regex.group m 1) + 1 in
                  let markerFrom := Doc.from line in
                  let markerTo := Doc.from line + markerLen in
                  b1 <- add builder markerFrom markerTo
                            (Replace HiddenMarker) ;;
                  b2 <- add b1 (Doc.from line) (Doc.from line)
                            (LineClass (headingClass level)) ;;
                  headingWhile fuel' d activeNumber (Doc.to line + 1) to b2
              | None =>
                  headingWhile fuel' d activeNumber (Doc.to line + 1) to
                               builder
              end
        end
    end
  else Done builder.

(** [for (const { from, to } of view.visibleRanges)].  Every iteration of
    the inner loop moves [pos] forward, so [to + 1 - from] iterations are
    all it can make. *)
Fixpoint headingFor (d : Doc.Text) (activeNumber : nat)
         (ranges : list VisibleRange) (builder : RangeSetBuilder)
  : outcome RangeSetBuilder :=
  match ranges with
  | [] => Done builder
  | r :: rest =>
      b <- headingWhile (S (vto r) - vfrom r) d activeNumber
                        (vfrom r) (vto r) builder ;;
      headingFor d activeNumber rest b
  end.

Definition headingBuild (view : EditorView) : outcome DecorationSet :=
  let st := state view in
  match Doc.lineAt (doc st) (head (selection_main st)) with
  | None => RangeError
  | Some activeLine =>
      b <- headingFor (doc st) (Doc.number activeLine)
                      (visibleRanges view) newBuilder ;;
      Done (finish b)
  end.

(* ================================================================= *)
(** ** Plugin: checkboxes *)

Fixpoint checkboxWhile (fuel : nat) (d : Doc.Text) (activeNumber : nat)
         (pos to : nat) (builder : RangeSetBuilder)
  : outcome RangeSetBuilder :=
  if pos <=? to then
    match fuel with
    | 0 => OutOfFuel
    | S fuel' =>
        match Doc.lineAt d pos with
        | None => RangeError
        | Some line =>
            if Doc.number line =? activeNumber then
              checkboxWhile fuel' d activeNumber (Doc.to line + 1) to builder
            else
              let text := Doc.text line in
              match Regex.exec checkboxRe text with
              | Some m =>
                  let checked :=
                    Js.eqb (Js.toLowerCase (Regex.group m 1)) (Js.lit "x") in
                  match Js.indexOf (Js.chr "["%char) text with
                  | Some bracketIndex =>
                      let fromAbs := Doc.from line + bracketIndex in
                      let toAbs := fromAbs + 3 in
                      b1 <- add builder fromAbs toAbs
                                (Replace
                                   (Checkbox
                                      (mkCheckbox checked fromAbs toAbs))) ;;
                      checkboxWhile fuel' d activeNumber (Doc.to line + 1) to
                                    b1
                  | None =>
                      checkboxWhile fuel' d activeNumber (Doc.to line + 1) to
                                    builder
                  end
              | None =>
                  checkboxWhile fuel' d activeNumber (Doc.to line + 1) to
                                builder
              end
        end
    end
  else Done builder.

Fixpoint checkboxFor (d : Doc.Text) (activeNumber : nat)
         (ranges : list VisibleRange) (builder : RangeSetBuilder)
  : outcome RangeSetBuilder :=
  match ranges with
  | [] => Done builder
  | r :: rest =>
      b <- checkboxWhile (S (vto r) - vfrom r) d activeNumber
                         (vfrom r) (vto r) builder ;;
      checkboxFor d activeNumber rest b
  end.

Definition checkboxBuild (view : EditorView) : outcome DecorationSet :=
  let st := state view in
  match Doc.lineAt (doc st) (head (selection_main st)) with
  | None => RangeError
  | Some activeLine =>
      b <- checkboxFor (doc st) (Doc.number activeLine)
                       (visibleRanges view) newBuilder ;;
      Done (finish b)
  end.

(* ================================================================= *)
(** ** The plugin classes: constructor and [update] *)

(** The one field of either anonymous plugin class. *)
Record Plugin := mkPlugin {
  decorations : DecorationSet
}.

(** The fields of the update object that [update] reads. *)
Record ViewUpdate := mkUpdate {
  docChanged : bool;
  viewportChanged : bool;
  selectionSet : bool;
  view : EditorView
}.

Definition headingNew (v : EditorView) : outcome Plugin :=
  ds <- headingBuild v ;; Done (mkPlugin ds).

Definition headingUpdate (this : Plugin) (update : ViewUpdate)
  : outcome Plugin :=
  if docChanged update || viewportChanged update || selectionSet update
  then ds <- headingBuild (view update) ;; Done (mkPlugin ds)
  else Done this.

Definition checkboxNew (v : EditorView) : outcome Plugin :=
  ds <- checkboxBuild v ;; Done (mkPlugin ds).

Definition checkboxUpdate (this : Plugin) (update : ViewUpdate)
  : outcome Plugin :=
  if docChanged update || viewportChanged update || selectionSet update
  then ds <- checkboxBuild (view update) ;; Done (mkPlugin ds)
  else Done this.

(* ================================================================= *)
(** ** The checkbox control *)

(** [{ changes: { from, to, insert } }] *)
Record ChangeSpec := mkChange {
  cfrom : nat;
  cto : nat;
  insert : str
}.

(** What [view.dispatch] does to the document: the range is replaced by
    the inserted text; a range outside the document is a [RangeError]. *)
Definition applyChange (d : Doc.Text) (c : ChangeSpec) : outcome Doc.Text :=
  if (cfrom c <=? cto c) && (cto c <=? length d)
  then Done (firstn (cfrom c) d ++ insert c ++ skipn (cto c) d)
  else RangeError.

(** The [<input type=checkbox>] that [toDOM] creates. *)
Record InputElement := mkInput {
  input_checked : bool
}.

Definition toDOM (w : CheckboxWidget) : InputElement :=
  mkInput (checked w).

(** A click flips the control, then its [change] listener runs. *)
Definition click (e : InputElement) : InputElement :=
  mkInput (negb (input_checked e)).

(** The document and the focus, the two things the listener acts on. *)
Record Surface := mkSurface {
  content : Doc.Text;
  focused : bool
}.

(** The [change] listener: dispatch the replacement, then [view.focus()]. *)
Definition onChange (w : CheckboxWidget) (e : InputElement) (s : Surface)
  : outcome Surface :=
  let next := if input_checked e then Js.lit "[x]" else Js.lit "[ ]" in
  d <- applyChange (content s) (mkChange (wfrom w) (wto w) next) ;;
  Done (mkSurface d true).

(** The user toggles the control a widget has rendered. *)
Definition toggle (w : CheckboxWidget) (s : Surface) : outcome Surface :=
  onChange w (click (toDOM w)) s.

(* ================================================================= *)
(** ** The component *)

Record EditorComponent := mkComponent {
  cview : option EditorView;
  exported : str
}.

(** [export()] *)
Definition export (this : EditorComponent) : EditorComponent :=
  match cview this with
  | None => this
  | Some v => mkComponent (cview this) (Doc.toString (doc (state v)))
  end.

(** [ngOnDestroy()] *)
Definition ngOnDestroy (this : EditorComponent) : EditorComponent :=
  mkComponent None (exported this).

(** The document [ngAfterViewInit] starts the editor with. *)
Definition initialDoc : Doc.Text :=
  Doc.join (Js.lit (String (ascii_of_nat 10) EmptyString))
    [ Js.lit "## Hola Heading";
      Js.lit "";
      Js.lit "- [ ] Comprar leche";
      Js.lit "- [x] Pagar factura";
      Js.lit "";
      Js.lit "Texto normal con **negrita** y `inline code`.";
      Js.lit "";
      Js.lit "> Una cita en markdown" ].

(** That document, the caret at offset [head], all of it in the viewport. *)
Definition initialView (head : nat) : EditorView :=
  mkView (mkState initialDoc (mkSel head head))
         [mkVisible 0 (length initialDoc)] false [].


(* ================================================================= *)
(** ** Vocabulary of the properties *)

(** The lines of the document that the range [[pos, to]] touches, in
    document order. *)
Definition scanned (d : Doc.Text) (pos to : nat) : list Doc.Line :=
  if pos <=? to
  then filter (fun l => (pos <=? Doc.to l) && (Doc.from l <=? to))
              (Doc.lines d)
  else [].

(** The ranges the heading loop hands to the builder for one line it
    does not skip, in the order of the two calls. *)
Definition headingLine (line : Doc.Line) : list Range :=
  match Regex.exec headingRe (Doc.text line) with
  | Some m =>
      [ mkRange (Doc.from line)
                (Doc.from line + (length (Regex.group m 1) + 1))
                (Replace HiddenMarker);
        mkRange (Doc.from line) (Doc.from line)
                (LineClass (headingClass (length (Regex.group m 1)))) ]
  | None => []
  end.

(** The range the checkbox loop hands to the builder for one line it
    does not skip. *)
Definition checkboxLine (line : Doc.Line) : list Range :=
  match Regex.exec checkboxRe (Doc.text line) with
  | Some m =>
      match Js.indexOf (Js.chr "["%char) (Doc.text line) with
      | Some bracketIndex =>
          let fromAbs := Doc.from line + bracketIndex in
          [ mkRange fromAbs (fromAbs + 3)
              (Replace
                 (Checkbox
                    (mkCheckbox
                       (Js.eqb (Js.toLowerCase (Regex.group m 1))
                               (Js.lit "x"))
                       fromAbs (fromAbs + 3)))) ]
      | None => []
      end
  | None => []
  end.

(** [builder.add] for each range of a list, in order, up to the first
    one the builder throws on. *)
Fixpoint addAll (b : RangeSetBuilder) (rs : list Range)
  : outcome RangeSetBuilder :=
  match rs with
  | [] => Done b
  | r :: rest => b' <- add b (rfrom r) (rto r) (value r) ;; addAll b' rest
  end.

(** The scan of the two builds with the work on a line left open. *)
Section LineLoop.

Variable body : Doc.Line -> list Range.

Fixpoint lineLoop (fuel : nat) (d : Doc.Text) (activeNumber : nat)
         (pos to : nat) (builder : RangeSetBuilder)
  : outcome RangeSetBuilder :=
  if pos <=? to then
    match fuel with
    | 0 => OutOfFuel
    | S fuel' =>
        match Doc.lineAt d pos with
        | None => RangeError
        | Some line =>
            if Doc.number line =? activeNumber then
              lineLoop fuel' d activeNumber (Doc.to line + 1) to builder
            else
              b' <- addAll builder (body line) ;;
              lineLoop fuel' d activeNumber (Doc.to line + 1) to b'
        end
    end
  else Done builder.

Fixpoint rangeLoop (d : Doc.Text) (activeNumber : nat)
         (ranges : list VisibleRange) (builder : RangeSetBuilder)
  : outcome RangeSetBuilder :=
  match ranges with
  | [] => Done builder
  | r :: rest =>
      b <- lineLoop (S (vto r) - vfrom r) d activeNumber
                    (vfrom r) (vto r) builder ;;
      rangeLoop d activeNumber rest b
  end.

Definition unlessActive (activeNumber : nat) (l : Doc.Line) : list Range :=
  if Doc.number l =? activeNumber then [] else body l.

(** What the body hands to the builder over the lines of the visible
    ranges, the active line left out, in the order of the calls. *)
Definition decorate (d : Doc.Text) (activeNumber : nat)
           (ranges : list VisibleRange) : list Range :=
  flat_map
    (fun r => flat_map (unlessActive activeNumber)
                       (scanned d (vfrom r) (vto r)))
    ranges.

End LineLoop.

(** Total length of a list of lines, each with its line break. *)
Fixpoint span (ls : list str) : nat :=
  match ls with
  | [] => 0
  | t :: rest => length t + 1 + span rest
  end.

(** A line that is in the viewport and is not the active one. *)
Definition visibleInactive (v : EditorView) (active l : Doc.Line) : Prop :=
  In l (Doc.lines (doc (state v)))
  /\ Doc.number l <> Doc.number active
  /\ exists r, In r (visibleRanges v)
               /\ vfrom r <= vto r
               /\ vfrom r <= Doc.to l
               /\ Doc.from l <= vto r.

(** A decoration that starts on the line. *)
Definition onLine (l : Doc.Line) (r : Range) : Prop :=
  Doc.from l <= rfrom r <= Doc.to l.

(** The number of marker characters a line starts with, and the length
    of the whitespace separator after them. *)
Definition markerLength (text : str) : nat :=
  Regex.run (Regex.Lit (Js.chr "#"%char)) text.

Definition separatorLength (text : str) : nat :=
  Regex.run Regex.Space (skipn (markerLength text) text).

(** The class names the theme styles, level 1 first. *)
Definition themeClasses : list str :=
  [ Js.lit "md-h1"; Js.lit "md-h2"; Js.lit "md-h3";
    Js.lit "md-h4"; Js.lit "md-h5"; Js.lit "md-h6" ].

(** A bracket token [[c]]. *)
Definition token (c : char) : str :=
  [Js.chr "["%char; c; Js.chr "]"%char].

(** The characters a checkbox token may hold, and which of them mean
    checked. *)
Definition boxChars : list char :=
  [Js.chr " "%char; Js.chr "x"%char; Js.chr "X"%char].

Definition isX (c : char) : bool :=
  N.eqb c (Js.chr "x"%char) || N.eqb c (Js.chr "X"%char).

(** The range of a decoration meets the extent of the line. *)
Definition touches (l : Doc.Line) (r : Range) : Prop :=
  rfrom r <= Doc.to l /\ Doc.from l <= rto r.

(** The order the builder asks of the calls made on it: by [from], and by
    [startSide] among ranges with the same [from]. *)
Definition inOrder (r1 r2 : Range) : Prop :=
  rfrom r1 < rfrom r2
  \/ (rfrom r1 = rfrom r2
      /\ (startSide (value r1) <= startSide (value r2))%Z).

(** Whether an update reports any of the three changes. *)
Definition reportsChange (u : ViewUpdate) : bool :=
  docChanged u || viewportChanged u || selectionSet u.

(** A checked task, a task whose brackets hold two characters, and the
    caret on the empty line after them. *)
Definition tasksDoc : Doc.Text :=
  Doc.join (Js.lit (String (ascii_of_nat 10) EmptyString))
    [ Js.lit "- [X] a"; Js.lit "- [ x] b"; Js.lit "" ].

Definition tasksView : EditorView :=
  mkView (mkState tasksDoc (mkSel 17 17))
         [mkVisible 0 (length tasksDoc)] false [].

(* ================================================================= *)
(** ** Vocabulary of the further properties *)

(** The view once the engine has put another document in it, the
    selection and the viewport staying where they were. *)
Definition withDoc (v : EditorView) (d : Doc.Text) : EditorView :=
  mkView (mkState d (selection_main (state v)))
         (visibleRanges v) (hasFocus v) (shown v).

(** The view with the caret moved to [h]. *)
Definition withHead (v : EditorView) (h : nat) : EditorView :=
  mkView (mkState (doc (state v)) (mkSel h h))
         (visibleRanges v) (hasFocus v) (shown v).

(** The view with another viewport. *)
Definition withRanges (v : EditorView) (rs : list VisibleRange)
  : EditorView :=
  mkView (state v) rs (hasFocus v) (shown v).

(** The engine hands a plugin its updates one after the other. *)
Fixpoint checkboxRun (p : Plugin) (us : list ViewUpdate) : outcome Plugin :=
  match us with
  | [] => Done p
  | u :: rest => p' <- checkboxUpdate p u ;; checkboxRun p' rest
  end.

(** The updates carry valid views, and one that reports no change brings
    the state and the viewport of the view before it. *)
Fixpoint faithful (v : EditorView) (us : list ViewUpdate) : Prop :=
  match us with
  | [] => True
  | u :: rest =>
      validView (view u) = true
      /\ (reportsChange u = false ->
          state (view u) = state v
          /\ visibleRanges (view u) = visibleRanges v)
      /\ faithful (view u) rest
  end.

(** The view the last update brought. *)
Definition lastView (v : EditorView) (us : list ViewUpdate) : EditorView :=
  last (map view us) v.

(** The first range ends before the second starts. *)
Definition apart (r1 r2 : Range) : Prop := rto r1 <= rfrom r2.

(** The range with its checkbox flipped, if it is the checkbox at [f]. *)
Definition flipAt (f : nat) (r : Range) : Range :=
  match value r with
  | Replace (Checkbox w) =>
      if wfrom w =? f
      then mkRange (rfrom r) (rto r)
             (Replace (Checkbox (mkCheckbox (negb (checked w))
                                            (wfrom w) (wto w))))
      else r
  | _ => r
  end.

(* ################################################################# *)
(** * Properties *)

(* ================================================================= *)
(** ** The matcher decides the language of a pattern *)

Section Matcher.

Import Regex.

Lemma run_le_length k s : run k s <= length s.
Proof.
  induction s as [|c s IH]; simpl; [lia|].
  destruct (inClass k c); simpl; lia.
Qed.

Lemma run_prefix k s n :
  n <= run k s -> forallb (inClass k) (firstn n s) = true.
Proof.
  revert n; induction s as [|c s IH]; intros n Hn; simpl in *.
  - now replace n with 0 by lia.
  - destruct n as [|n]; [reflexivity|].
    destruct (inClass k c) eqn:Hc; [|lia].
    simpl. rewrite Hc. apply IH. lia.
Qed.

Lemma prefix_le_run k s n :
  n <= length s -> forallb (inClass k) (firstn n s) = true -> n <= run k s.
Proof.
  revert n; induction s as [|c s IH]; intros n Hn Hall; simpl in *.
  - lia.
  - destruct n as [|n]; [lia|]. simpl in Hall.
    apply andb_true_iff in Hall as [Hc Hall]. rewrite Hc.
    apply le_n_S, IH; [lia | exact Hall].
Qed.

(** A block of class characters followed by a character outside the class
    (or by nothing) is exactly the greedy run. *)
Lemma run_app k pre tail :
  forallb (inClass k) pre = true ->
  match tail with [] => True | c :: _ => inClass k c = false end ->
  run k (pre ++ tail) = length pre.
Proof.
  intros Hpre Htail. induction pre as [|c pre IH]; simpl in *.
  - destruct tail as [|c tail]; [reflexivity|]. simpl. now rewrite Htail.
  - apply andb_true_iff in Hpre as [Hc Hpre]. rewrite Hc. f_equal. now apply IH.
Qed.

Lemma backtrack_eq A (cont : str -> option A) s lo n :
  backtrack cont s lo n =
  if n <? lo then None
  else match cont (skipn n s) with
       | Some r => Some (n, r)
       | None => match n with
                 | 0 => None
                 | S n' => backtrack cont s lo n'
                 end
       end.
Proof. destruct n; reflexivity. Qed.

Lemma backtrack_sound A (cont : str -> option A) s lo n k r :
  backtrack cont s lo n = Some (k, r) ->
  lo <= k /\ k <= n /\ cont (skipn k s) = Some r.
Proof.
  induction n as [|n IH]; rewrite backtrack_eq.
  - destruct (0 <? lo) eqn:Hlo; [discriminate|].
    apply Nat.ltb_ge in Hlo.
    destruct (cont (skipn 0 s)) eqn:Hc; [|discriminate].
    intros [= <- <-]. repeat split; [lia | lia | exact Hc].
  - destruct (S n <? lo) eqn:Hlo; [discriminate|].
    apply Nat.ltb_ge in Hlo.
    destruct (cont (skipn (S n) s)) eqn:Hc.
    + intros [= <- <-]. repeat split; [lia | lia | exact Hc].
    + intros H. apply IH in H as (H1 & H2 & H3).
      repeat split; [lia | lia | exact H3].
Qed.

Lemma backtrack_first A (cont : str -> option A) s lo n r :
  lo <= n -> cont (skipn n s) = Some r ->
  backtrack cont s lo n = Some (n, r).
Proof.
  intros Hlo Hc. rewrite backtrack_eq, Hc.
  now replace (n <? lo) with false by (symmetry; apply Nat.ltb_ge; lia).
Qed.

Lemma backtrack_complete A (cont : str -> option A) s lo n k r :
  lo <= k -> k <= n -> cont (skipn k s) = Some r ->
  exists k' r', backtrack cont s lo n = Some (k', r').
Proof.
  intros Hlo Hk Hc. induction n as [|n IH].
  - replace k with 0 in * by lia.
    exists 0, r. now apply backtrack_first.
  - destruct (Nat.eq_dec k (S n)) as [->|Hne].
    + exists (S n), r. now apply backtrack_first.
    + rewrite backtrack_eq.
      replace (S n <? lo) with false by (symmetry; apply Nat.ltb_ge; lia).
      destruct (cont (skipn (S n) s)) as [r'|]; [now exists (S n), r'|].
      apply IH. lia.
Qed.

Lemma matchAtoms_cons a rest anchored s :
  matchAtoms (a :: rest) anchored s =
  match backtrack (matchAtoms rest anchored) s (lo a) (reach a s) with
  | Some (k, (len, caps)) =>
      Some (k + len, if captured a then firstn k s :: caps else caps)
  | None => None
  end.
Proof. reflexivity. Qed.

Theorem matchAtoms_sound ats anchored s len caps :
  matchAtoms ats anchored s = Some (len, caps) ->
  Matches anchored ats s len caps.
Proof.
  revert s len caps. induction ats as [|a rest IH]; intros s len caps.
  - simpl. destruct anchored.
    + destruct s; [|discriminate]. intros [= <- <-]. now constructor.
    + intros [= <- <-]. constructor. discriminate.
  - rewrite matchAtoms_cons.
    destruct (backtrack _ s (lo a) (reach a s)) as [[k [len' caps']]|] eqn:Hb;
      [|discriminate].
    intros [= <- <-].
    apply backtrack_sound in Hb as (Hlo & Hk & Hrest).
    assert (Hrun : k <= run (cls a) s).
    { unfold reach in Hk. destruct (hi a); lia. }
    constructor.
    + pose proof (run_le_length (cls a) s). lia.
    + exact Hlo.
    + intros h Hh. unfold reach in Hk. rewrite Hh in Hk. lia.
    + now apply run_prefix.
    + now apply IH.
Qed.

Theorem matchAtoms_complete ats anchored s len caps :
  Matches anchored ats s len caps ->
  exists len' caps', matchAtoms ats anchored s = Some (len', caps').
Proof.
  induction 1 as [s Hs | a rest s k len caps Hlen Hlo Hhi Hall _ IH].
  - simpl. destruct anchored.
    + rewrite Hs by reflexivity. now exists 0, [].
    + now exists 0, [].
  - destruct IH as (len' & caps' & IH).
    rewrite matchAtoms_cons.
    assert (Hk : k <= reach a s).
    { pose proof (prefix_le_run (cls a) s Hlen Hall) as Hr.
      unfold reach. destruct (hi a) as [h|] eqn:Hh; [|exact Hr].
      specialize (Hhi h eq_refl). lia. }
    destruct (backtrack_complete (matchAtoms rest anchored) s Hlo Hk IH)
      as (k' & [len'' caps''] & Hb).
    rewrite Hb. eauto.
Qed.

Corollary exec_language re s :
  (exists m, exec re s = Some m) <-> InLanguage re s.
Proof.
  unfold exec, InLanguage. split.
  - intros [m Hm].
    destruct (matchAtoms (atoms re) (toEnd re) s) as [[len caps]|] eqn:E;
      [|discriminate].
    exists len, caps. now apply matchAtoms_sound.
  - intros (len & caps & H).
    apply matchAtoms_complete in H as (len' & caps' & H).
    rewrite H. eauto.
Qed.

(** When the whole greedy run is followed by a match of the rest, that is
    the match the engine returns. *)
Lemma matchAtoms_greedy a rest anchored pre tail len caps :
  reach a (pre ++ tail) = length pre ->
  lo a <= length pre ->
  matchAtoms rest anchored tail = Some (len, caps) ->
  matchAtoms (a :: rest) anchored (pre ++ tail) =
  Some (length pre + len, if captured a then pre :: caps else caps).
Proof.
  intros Hreach Hlo Hrest.
  rewrite matchAtoms_cons, Hreach.
  rewrite (@backtrack_first _ _ _ _ _ (len, caps) Hlo).
  - now rewrite firstn_app, Nat.sub_diag, firstn_all, app_nil_r.
  - now rewrite skipn_app, Nat.sub_diag, skipn_all, skipn_O.
Qed.

End Matcher.

(* ================================================================= *)
(** ** Lines of a document *)

Section Lines.

Import Doc.

Lemma split_nonempty s : split s <> [].
Proof.
  induction s as [|c s IH]; simpl; [discriminate|].
  destruct (N.eqb c newline); [discriminate|].
  destruct (split s); [contradiction | discriminate].
Qed.

Lemma span_split s : span (split s) = length s + 1.
Proof.
  induction s as [|c s IH]; simpl; [reflexivity|].
  destruct (N.eqb c newline); simpl; [lia|].
  destruct (split s) as [|l ls] eqn:E; [now apply split_nonempty in E|].
  simpl in *. lia.
Qed.

Lemma join_split s : join [newline] (split s) = s.
Proof.
  induction s as [|c s IH]; [reflexivity|].
  simpl split. destruct (N.eqb c newline) eqn:Hc.
  - apply N.eqb_eq in Hc. subst c.
    destruct (split s) as [|l ls] eqn:E; [now apply split_nonempty in E|].
    change (join [newline] ([] :: l :: ls))
      with ([] ++ [newline] ++ join [newline] (l :: ls)).
    now rewrite IH.
  - destruct (split s) as [|l ls] eqn:E; [now apply split_nonempty in E|].
    rewrite <- IH. destruct ls; reflexivity.
Qed.

Lemma linesFrom_bounds ls start num l :
  In l (linesFrom ls start num) ->
  start <= from l /\ to l = from l + length (text l)
  /\ to l < start + span ls /\ num <= number l.
Proof.
  revert start num. induction ls as [|t rest IH]; intros start num;
    simpl; [tauto|].
  intros [<- | Hin]; simpl; [lia|].
  apply IH in Hin. lia.
Qed.

Lemma linesFrom_find ls start num p l :
  In l (linesFrom ls start num) -> from l <= p <= to l ->
  find (fun x => p <=? to x) (linesFrom ls start num) = Some l.
Proof.
  revert start num. induction ls as [|t rest IH]; intros start num;
    simpl; [tauto|].
  intros [<- | Hin] Hp; simpl in *.
  - now replace (p <=? start + length t) with true
      by (symmetry; apply Nat.leb_le; lia).
  - pose proof (linesFrom_bounds _ _ _ _ Hin) as Hb.
    replace (p <=? start + length t) with false
      by (symmetry; apply Nat.leb_gt; lia).
    now apply IH.
Qed.

Lemma linesFrom_found ls start num p l :
  start <= p ->
  find (fun x => p <=? to x) (linesFrom ls start num) = Some l ->
  In l (linesFrom ls start num) /\ from l <= p <= to l.
Proof.
  revert start num. induction ls as [|t rest IH]; intros start num Hp;
    simpl; [discriminate|].
  destruct (p <=? start + length t) eqn:E.
  - intros [= <-]. apply Nat.leb_le in E. simpl. split; [now left | lia].
  - apply Nat.leb_gt in E. intros H.
    apply IH in H; [|lia]. tauto.
Qed.

Lemma linesFrom_total ls start num p :
  start <= p -> p < start + span ls ->
  exists l, find (fun x => p <=? to x) (linesFrom ls start num) = Some l.
Proof.
  revert start num. induction ls as [|t rest IH]; intros start num Hs Hp;
    simpl in *; [exfalso; lia|].
  destruct (p <=? start + length t) eqn:E; [eauto|].
  apply Nat.leb_gt in E. apply IH; lia.
Qed.

Lemma linesFrom_text ls prefix num l :
  In l (linesFrom ls (length prefix) num) ->
  text l = Js.slice (prefix ++ join [newline] ls) (from l) (to l).
Proof.
  revert prefix num. induction ls as [|t rest IH]; intros prefix num;
    simpl linesFrom; [intros []|].
  intros [<- | Hin]; unfold Js.slice; simpl from; simpl to.
  - replace (length prefix + length t - length prefix) with (length t) by lia.
    rewrite skipn_app, Nat.sub_diag, skipn_all, skipn_O. simpl app.
    destruct rest; simpl join.
    + now rewrite firstn_all.
    + now rewrite firstn_app, Nat.sub_diag, firstn_all, app_nil_r.
  - destruct rest as [|t' rest']; [destruct Hin|].
    change (join [newline] (t :: t' :: rest'))
      with (t ++ [newline] ++ join [newline] (t' :: rest')).
    specialize (IH (prefix ++ t ++ [newline]) (S num)).
    rewrite !length_app in IH. simpl length in IH.
    rewrite Nat.add_assoc in IH. specialize (IH Hin).
    rewrite IH. unfold Js.slice. now rewrite <- !app_assoc.
Qed.

Lemma lineAt_found d p l :
  lineAt d p = Some l -> In l (lines d) /\ from l <= p <= to l.
Proof. apply linesFrom_found. lia. Qed.

Lemma lineAt_line d p l :
  In l (lines d) -> from l <= p <= to l -> lineAt d p = Some l.
Proof. apply linesFrom_find. Qed.

Lemma lineAt_total d p :
  p <= length d -> exists l, lineAt d p = Some l.
Proof.
  intros Hp. apply linesFrom_total; [lia|]. rewrite span_split. lia.
Qed.

Lemma line_bounds d l :
  In l (lines d) ->
  to l = from l + length (text l) /\ to l <= length d /\ 1 <= number l.
Proof.
  intros Hin. apply linesFrom_bounds in Hin. rewrite span_split in Hin. lia.
Qed.

Lemma line_text d l :
  In l (lines d) -> text l = Js.slice d (from l) (to l).
Proof.
  intros Hin. rewrite <- (join_split d) at 1.
  now apply (linesFrom_text (split d) [] 1).
Qed.

(** Two lines of a document that share an offset are the same line. *)
Lemma line_unique d l l' p :
  In l (lines d) -> In l' (lines d) ->
  from l <= p <= to l -> from l' <= p <= to l' -> l = l'.
Proof.
  intros Hl Hl' Hp Hp'.
  pose proof (lineAt_line _ _ Hl Hp) as H1.
  pose proof (lineAt_line _ _ Hl' Hp') as H2. congruence.
Qed.

Lemma linesFrom_sorted ls start num :
  StronglySorted (fun l l' => to l < from l' /\ number l < number l')
                 (linesFrom ls start num).
Proof.
  revert start num. induction ls as [|t rest IH]; intros start num;
    cbn [linesFrom]; constructor; [apply IH|].
  apply Forall_forall. intros l Hl. apply linesFrom_bounds in Hl.
  cbn [to number]. lia.
Qed.

Lemma sorted_pair (R : Line -> Line -> Prop) L l l' :
  StronglySorted R L -> In l L -> In l' L ->
  l = l' \/ R l l' \/ R l' l.
Proof.
  induction 1 as [|x L HL IH Hx]; [intros []|].
  rewrite Forall_forall in Hx.
  intros [<- | Hl] [<- | Hl']; auto.
Qed.

(** Two different lines of a document lie apart. *)
Lemma lines_apart d l l' :
  In l (lines d) -> In l' (lines d) ->
  l = l' \/ (to l < from l' /\ number l < number l')
  \/ (to l' < from l /\ number l' < number l).
Proof.
  intros Hl Hl'.
  exact (@sorted_pair
           (fun l l' => to l < from l' /\ number l < number l')
           _ l l' (linesFrom_sorted (split d) 0 1) Hl Hl').
Qed.

End Lines.

(* ================================================================= *)
(** ** The scan of a visible range *)

Section Scan.

Import Doc.

Variable body : Line -> list Range.
Variable d : Text.
Variable active : nat.

Lemma find_skip (f : Line -> bool) L1 L2 :
  (forall l, In l L1 -> f l = false) -> find f (L1 ++ L2) = find f L2.
Proof.
  induction L1 as [|x L1 IH]; intros H; simpl; [reflexivity|].
  rewrite (H x) by now left. apply IH. intros l Hl. apply H. now right.
Qed.

Lemma filter_none (f : Line -> bool) L :
  (forall l, In l L -> f l = false) -> filter f L = [].
Proof.
  induction L as [|x L IH]; intros H; simpl; [reflexivity|].
  rewrite (H x) by now left. apply IH. intros l Hl. apply H. now right.
Qed.

Lemma addAll_app b xs ys :
  addAll b (xs ++ ys) = (b' <- addAll b xs ;; addAll b' ys).
Proof.
  revert b. induction xs as [|x xs IH]; intros b; cbn [app addAll];
    [reflexivity|].
  destruct (add b (rfrom x) (rto x) (value x)); cbn [bind];
    [apply IH | reflexivity ..].
Qed.

Lemma lineLoop_step fuel pos to b l :
  pos <= to -> lineAt d pos = Some l ->
  lineLoop body (S fuel) d active pos to b =
  (b' <- addAll b (unlessActive body active l) ;;
   lineLoop body fuel d active (Doc.to l + 1) to b').
Proof.
  intros Hpos Hl. cbn [lineLoop].
  replace (pos <=? to) with true by (symmetry; now apply Nat.leb_le).
  rewrite Hl. unfold unlessActive.
  destruct (number l =? active); reflexivity.
Qed.

Lemma lineLoop_exit fuel pos to b :
  to < pos -> lineLoop body fuel d active pos to b = Done b.
Proof.
  intros H. destruct fuel; simpl;
    now replace (pos <=? to) with false by (symmetry; now apply Nat.leb_gt).
Qed.

(** From the start of a line on. *)
Lemma lineLoop_aligned to :
  to <= length d ->
  forall ls start num L1 fuel b,
    lines d = L1 ++ linesFrom ls start num ->
    (forall l, In l L1 -> Doc.to l < start) ->
    start + span ls = length d + 1 ->
    S to - start <= fuel ->
    lineLoop body fuel d active start to b =
    addAll b (flat_map (unlessActive body active)
                (filter (fun l => from l <=? to) (linesFrom ls start num))).
Proof.
  intros Hto. induction ls as [|t rest IH];
    intros start num L1 fuel b Hd HL1 Hspan Hfuel.
  - cbn [span linesFrom filter flat_map addAll] in *.
    apply lineLoop_exit. lia.
  - cbn [span] in Hspan.
    destruct (Nat.le_gt_cases start to) as [Hle | Hgt].
    + destruct fuel as [|fuel]; [lia|].
      assert (Hh : lineAt d start
                   = Some (mkLine start (start + length t) num t)).
      { unfold lineAt. rewrite Hd, find_skip.
        - cbn. now replace (start <=? start + length t) with true
            by (symmetry; apply Nat.leb_le; lia).
        - intros l Hl. apply Nat.leb_gt. now apply HL1. }
      rewrite (lineLoop_step _ _ Hle Hh).
      cbn [linesFrom filter Doc.from Doc.to].
      replace (start <=? to) with true by (symmetry; now apply Nat.leb_le).
      cbn [flat_map]. rewrite addAll_app.
      destruct (addAll b _) as [b'| | |]; cbn [bind]; try reflexivity.
      apply (IH _ _ (L1 ++ [mkLine start (start + length t) num t])).
      * rewrite Hd. cbn [linesFrom]. now rewrite <- app_assoc.
      * intros l Hl. apply in_app_or in Hl as [Hl | [<- | []]].
        -- apply HL1 in Hl. lia.
        -- cbn. lia.
      * lia.
      * lia.
    + rewrite lineLoop_exit by exact Hgt.
      rewrite filter_none; [reflexivity|].
      intros l Hl. apply linesFrom_bounds in Hl. apply Nat.leb_gt. lia.
Qed.

(** From anywhere inside the document. *)
Lemma lineLoop_inside pos to :
  pos <= to -> to <= length d ->
  forall ls start num L1 fuel b,
    lines d = L1 ++ linesFrom ls start num ->
    (forall l, In l L1 -> Doc.to l < pos) ->
    start <= pos ->
    start + span ls = length d + 1 ->
    S to - pos <= fuel ->
    lineLoop body fuel d active pos to b =
    addAll b (flat_map (unlessActive body active)
                (filter (fun l => (pos <=? Doc.to l) && (from l <=? to))
                        (linesFrom ls start num))).
Proof.
  intros Hpos Hto. induction ls as [|t rest IH];
    intros start num L1 fuel b Hd HL1 Hstart Hspan Hfuel.
  - cbn [span] in Hspan. lia.
  - cbn [span] in Hspan.
    destruct fuel as [|fuel]; [lia|].
    cbn [linesFrom filter Doc.from Doc.to].
    destruct (Nat.le_gt_cases pos (start + length t)) as [Hle | Hgt].
    + assert (Hh : lineAt d pos
                   = Some (mkLine start (start + length t) num t)).
      { unfold lineAt. rewrite Hd, find_skip.
        - cbn. now replace (pos <=? start + length t) with true
            by (symmetry; apply Nat.leb_le; lia).
        - intros l Hl. apply Nat.leb_gt. now apply HL1. }
      rewrite (lineLoop_step _ _ Hpos Hh).
      replace (pos <=? start + length t) with true
        by (symmetry; now apply Nat.leb_le).
      replace (start <=? to) with true by (symmetry; apply Nat.leb_le; lia).
      cbn [andb flat_map Doc.to]. rewrite addAll_app.
      destruct (addAll b _) as [b'| | |]; cbn [bind]; try reflexivity.
      rewrite (@lineLoop_aligned to Hto rest (start + length t + 1) (S num)
                 (L1 ++ [mkLine start (start + length t) num t])).
      * f_equal. f_equal. apply filter_ext_in.
        intros l Hl. apply linesFrom_bounds in Hl.
        replace (pos <=? Doc.to l) with true
          by (symmetry; apply Nat.leb_le; lia).
        reflexivity.
      * rewrite Hd. cbn [linesFrom]. now rewrite <- app_assoc.
      * intros l Hl. apply in_app_or in Hl as [Hl | [<- | []]].
        -- apply HL1 in Hl. lia.
        -- cbn. lia.
      * lia.
      * lia.
    + replace (pos <=? start + length t) with false
        by (symmetry; now apply Nat.leb_gt).
      cbn [andb].
      apply (IH _ _ (L1 ++ [mkLine start (start + length t) num t])).
      * rewrite Hd. cbn [linesFrom]. now rewrite <- app_assoc.
      * intros l Hl. apply in_app_or in Hl as [Hl | [<- | []]].
        -- now apply HL1.
        -- cbn. lia.
      * lia.
      * lia.
      * lia.
Qed.

(** The loop over one visible range hands to the builder, for every line
    the range touches, what the body has for it, the active line left
    out; it ends as the builder does on these calls. *)
Theorem lineLoop_scanned fuel pos to b :
  to <= length d -> S to - pos <= fuel ->
  lineLoop body fuel d active pos to b =
  addAll b (flat_map (unlessActive body active) (scanned d pos to)).
Proof.
  intros Hto Hfuel. unfold scanned.
  destruct (pos <=? to) eqn:E.
  - apply Nat.leb_le in E.
    apply (@lineLoop_inside pos to E Hto (split d) 0 1 []);
      [reflexivity | intros l [] | lia | | exact Hfuel].
    rewrite span_split. lia.
  - apply Nat.leb_gt in E. cbn [flat_map addAll].
    now apply lineLoop_exit.
Qed.

Theorem rangeLoop_decorate ranges b :
  forallb (fun r => vto r <=? length d) ranges = true ->
  rangeLoop body d active ranges b = addAll b (decorate body d active ranges).
Proof.
  revert b. induction ranges as [|r rest IH]; intros b Hv;
    cbn [rangeLoop decorate flat_map]; [reflexivity|].
  cbn [forallb] in Hv. apply andb_true_iff in Hv as [Hr Hv].
  apply Nat.leb_le in Hr.
  rewrite lineLoop_scanned by (exact Hr || lia). rewrite addAll_app.
  destruct (addAll b _) as [b'| | |]; cbn [bind]; try reflexivity.
  now apply IH.
Qed.

End Scan.

(* ================================================================= *)
(** ** The two builds as instances of the scan *)

Section Builds.

Lemma headingWhile_lineLoop fuel d active pos to b :
  headingWhile fuel d active pos to b
  = lineLoop headingLine fuel d active pos to b.
Proof.
  revert pos b. induction fuel as [|fuel IH]; intros pos b; [reflexivity|].
  cbn [headingWhile lineLoop].
  destruct (pos <=? to); [|reflexivity].
  destruct (Doc.lineAt d pos) as [line|]; [|reflexivity].
  destruct (Doc.number line =? active); [apply IH|].
  unfold headingLine.
  destruct (Regex.exec headingRe (Doc.text line));
    cbn [addAll bind rfrom rto value]; [|apply IH].
  destruct (add b _ _ _) as [b1| | |]; cbn [bind]; try reflexivity.
  destruct (add b1 _ _ _) as [b2| | |]; cbn [bind]; try reflexivity.
  apply IH.
Qed.

Lemma checkboxWhile_lineLoop fuel d active pos to b :
  checkboxWhile fuel d active pos to b
  = lineLoop checkboxLine fuel d active pos to b.
Proof.
  revert pos b. induction fuel as [|fuel IH]; intros pos b; [reflexivity|].
  cbn [checkboxWhile lineLoop].
  destruct (pos <=? to); [|reflexivity].
  destruct (Doc.lineAt d pos) as [line|]; [|reflexivity].
  destruct (Doc.number line =? active); [apply IH|].
  unfold checkboxLine.
  destruct (Regex.exec checkboxRe (Doc.text line));
    cbn [addAll bind]; [|apply IH].
  destruct (Js.indexOf _ (Doc.text line));
    cbn [addAll bind rfrom rto value]; [|apply IH].
  destruct (add b _ _ _) as [b1| | |]; cbn [bind]; try reflexivity.
  apply IH.
Qed.

Lemma headingFor_rangeLoop d active ranges b :
  headingFor d active ranges b = rangeLoop headingLine d active ranges b.
Proof.
  revert b. induction ranges as [|r rest IH]; intros b; [reflexivity|].
  cbn [headingFor rangeLoop]. rewrite headingWhile_lineLoop.
  destruct (lineLoop _ _ _ _ _ _ _); cbn [bind]; [apply IH | reflexivity ..].
Qed.

Lemma checkboxFor_rangeLoop d active ranges b :
  checkboxFor d active ranges b = rangeLoop checkboxLine d active ranges b.
Proof.
  revert b. induction ranges as [|r rest IH]; intros b; [reflexivity|].
  cbn [checkboxFor rangeLoop]. rewrite checkboxWhile_lineLoop.
  destruct (lineLoop _ _ _ _ _ _ _); cbn [bind]; [apply IH | reflexivity ..].
Qed.

Lemma validView_inv v :
  validView v = true ->
  (exists a, Doc.lineAt (doc (state v)) (head (selection_main (state v)))
             = Some a)
  /\ forallb (fun r => vto r <=? length (doc (state v))) (visibleRanges v)
     = true.
Proof.
  unfold validView. intros H. apply andb_true_iff in H as [H _].
  apply andb_true_iff in H as [Hh Hr].
  split; [|exact Hr]. apply lineAt_total. now apply Nat.leb_le.
Qed.

Lemma validView_ascending v :
  validView v = true -> ascending (visibleRanges v) = true.
Proof.
  unfold validView. intros H. now apply andb_true_iff in H as [_ H].
Qed.

(** On a valid view a build makes its calls on a new builder, for the
    visible lines other than the active one, and ends as the builder
    does. *)
Theorem headingBuild_addAll v a :
  validView v = true ->
  Doc.lineAt (doc (state v)) (head (selection_main (state v))) = Some a ->
  headingBuild v
  = (b <- addAll newBuilder
                 (decorate headingLine (doc (state v)) (Doc.number a)
                           (visibleRanges v)) ;;
     Done (finish b)).
Proof.
  intros Hv Ha. apply validView_inv in Hv as [_ Hr].
  unfold headingBuild. rewrite Ha, headingFor_rangeLoop.
  now rewrite rangeLoop_decorate.
Qed.

Theorem checkboxBuild_addAll v a :
  validView v = true ->
  Doc.lineAt (doc (state v)) (head (selection_main (state v))) = Some a ->
  checkboxBuild v
  = (b <- addAll newBuilder
                 (decorate checkboxLine (doc (state v)) (Doc.number a)
                           (visibleRanges v)) ;;
     Done (finish b)).
Proof.
  intros Hv Ha. apply validView_inv in Hv as [_ Hr].
  unfold checkboxBuild. rewrite Ha, checkboxFor_rangeLoop.
  now rewrite rangeLoop_decorate.
Qed.

(** Membership in a decoration: the range comes from a line that a
    visible range touches and that is not the active one. *)
Lemma in_decorate body d active ranges r :
  In r (decorate body d active ranges) <->
  exists l vr,
    In vr ranges /\ vfrom vr <= vto vr
    /\ In l (Doc.lines d)
    /\ vfrom vr <= Doc.to l /\ Doc.from l <= vto vr
    /\ Doc.number l <> active
    /\ In r (body l).
Proof.
  unfold decorate, unlessActive, scanned. rewrite in_flat_map. split.
  - intros (vr & Hvr & Hr). apply in_flat_map in Hr as (l & Hl & Hr).
    destruct (vfrom vr <=? vto vr) eqn:E; [|destruct Hl].
    apply filter_In in Hl as [Hl Hb].
    apply andb_true_iff in Hb as [H1 H2].
    apply Nat.leb_le in E, H1, H2.
    destruct (Doc.number l =? active) eqn:En; [destruct Hr|].
    apply Nat.eqb_neq in En. exists l, vr. tauto.
  - intros (l & vr & Hvr & E & Hl & H1 & H2 & En & Hr).
    exists vr. split; [exact Hvr|]. apply in_flat_map. exists l.
    apply Nat.leb_le in E, H1, H2. rewrite E. split.
    + apply filter_In. split; [exact Hl|]. now rewrite H1, H2.
    + apply Nat.eqb_neq in En. now rewrite En.
Qed.

End Builds.

(* ================================================================= *)
(** ** The two patterns *)

Section Patterns.

Import Regex.

Lemma Matches_cons_inv anchored a rest s len caps :
  Matches anchored (a :: rest) s len caps ->
  exists pre tail len' caps',
    s = pre ++ tail
    /\ forallb (inClass (cls a)) pre = true
    /\ lo a <= length pre
    /\ (forall h, hi a = Some h -> length pre <= h)
    /\ Matches anchored rest tail len' caps'
    /\ len = length pre + len'
    /\ caps = (if captured a then pre :: caps' else caps').
Proof.
  inversion 1 as [|a' rest' s' k len' caps' Hk Hlo Hhi Hall Hrest]; subst.
  exists (firstn k s), (skipn k s), len', caps'.
  assert (Hlen : length (firstn k s) = k) by (rewrite length_firstn; lia).
  rewrite Hlen. repeat split; auto. now rewrite firstn_skipn.
Qed.

Lemma Matches_nil_inv anchored s len caps :
  Matches anchored [] s len caps ->
  len = 0 /\ caps = [] /\ (anchored = true -> s = []).
Proof. inversion 1; subst; auto. Qed.

Lemma single_char (pre : str) :
  1 <= length pre -> length pre <= 1 -> exists c, pre = [c].
Proof.
  destruct pre as [|c [|c' pre]]; simpl; intros; try lia. now exists c.
Qed.

Lemma space_not_hash c : isSpace c = true -> N.eqb c (Js.chr "#"%char) = false.
Proof.
  intros H. destruct (N.eqb c (Js.chr "#"%char)) eqn:E; [|reflexivity].
  apply N.eqb_eq in E. subst c. discriminate H.
Qed.

Lemma space_not_dash c : isSpace c = true -> c <> Js.chr "-"%char.
Proof. intros H ->. discriminate H. Qed.

Lemma space_not_bracket c : isSpace c = true -> c <> Js.chr "["%char.
Proof. intros H ->. discriminate H. Qed.

(** What a heading match is made of. *)
Theorem heading_exec_inv text m :
  exec headingRe text = Some m ->
  exists hashes sep content,
    text = hashes ++ sep ++ content
    /\ forallb (fun c => N.eqb c (Js.chr "#"%char)) hashes = true
    /\ 1 <= length hashes <= 6
    /\ forallb isSpace sep = true
    /\ 1 <= length sep
    /\ forallb (fun c => negb (isLineTerminator c)) content = true
    /\ m = [text; hashes; content].
Proof.
  unfold exec.
  destruct (matchAtoms (atoms headingRe) (toEnd headingRe) text)
    as [[len caps]|] eqn:E; [|discriminate].
  intros [= <-]. apply matchAtoms_sound in E. cbn in E.
  apply Matches_cons_inv in E
    as (hashes & t1 & len1 & caps1 & -> & Hh & Hlo & Hhi & E & -> & ->).
  apply Matches_cons_inv in E
    as (sep & t2 & len2 & caps2 & -> & Hs & Hslo & _ & E & -> & ->).
  apply Matches_cons_inv in E
    as (content & t3 & len3 & caps3 & -> & Hc & _ & _ & E & -> & ->).
  apply Matches_nil_inv in E as (-> & -> & Ht3).
  rewrite (Ht3 eq_refl), app_nil_r in *.
  cbn in Hlo, Hslo, Hhi. specialize (Hhi 6 eq_refl).
  exists hashes, sep, content. repeat split; auto.
  cbn [captured]. f_equal.
  apply firstn_all2. rewrite !length_app. lia.
Qed.

Lemma heading_markerLength hashes sep content :
  forallb (fun c => N.eqb c (Js.chr "#"%char)) hashes = true ->
  forallb isSpace sep = true -> 1 <= length sep ->
  markerLength (hashes ++ sep ++ content) = length hashes.
Proof.
  intros Hh Hs Hlen. apply run_app; [exact Hh|].
  destruct sep as [|c sep]; [simpl in Hlen; lia|].
  simpl in Hs. apply andb_true_iff in Hs as [Hc _].
  simpl. now apply space_not_hash.
Qed.

Lemma heading_separatorLength hashes sep content :
  forallb (fun c => N.eqb c (Js.chr "#"%char)) hashes = true ->
  forallb isSpace sep = true -> 1 <= length sep ->
  length sep <= separatorLength (hashes ++ sep ++ content).
Proof.
  intros Hh Hs Hlen. unfold separatorLength.
  rewrite heading_markerLength by assumption.
  rewrite skipn_app, Nat.sub_diag, skipn_all, skipn_O. simpl app.
  apply prefix_le_run.
  - rewrite length_app. lia.
  - now rewrite firstn_app, Nat.sub_diag, firstn_all, app_nil_r.
Qed.

(** What a checkbox match is made of. *)
Theorem checkbox_exec_inv text m :
  exec checkboxRe text = Some m ->
  exists ws1 ws2 c rest,
    text = ws1 ++ Js.chr "-"%char :: ws2 ++ token c ++ rest
    /\ forallb isSpace ws1 = true
    /\ forallb isSpace ws2 = true
    /\ In c boxChars
    /\ m = [ws1 ++ Js.chr "-"%char :: ws2 ++ token c; [c]].
Proof.
  unfold exec.
  destruct (matchAtoms (atoms checkboxRe) (toEnd checkboxRe) text)
    as [[len caps]|] eqn:E; [|discriminate].
  intros [= <-]. apply matchAtoms_sound in E. cbn in E.
  apply Matches_cons_inv in E
    as (ws1 & t1 & len1 & caps1 & -> & Hw1 & _ & _ & E & -> & ->).
  apply Matches_cons_inv in E
    as (p2 & t2 & len2 & caps2 & -> & H2 & Hlo2 & Hhi2 & E & -> & ->).
  apply Matches_cons_inv in E
    as (ws2 & t3 & len3 & caps3 & -> & Hw2 & _ & _ & E & -> & ->).
  apply Matches_cons_inv in E
    as (p4 & t4 & len4 & caps4 & -> & H4 & Hlo4 & Hhi4 & E & -> & ->).
  apply Matches_cons_inv in E
    as (p5 & t5 & len5 & caps5 & -> & H5 & Hlo5 & Hhi5 & E & -> & ->).
  apply Matches_cons_inv in E
    as (p6 & t6 & len6 & caps6 & -> & H6 & Hlo6 & Hhi6 & E & -> & ->).
  apply Matches_nil_inv in E as (-> & -> & _).
  cbn in Hlo2, Hhi2, Hlo4, Hhi4, Hlo5, Hhi5, Hlo6, Hhi6.
  destruct (single_char p2 Hlo2 (Hhi2 1 eq_refl)) as [c2 ->].
  destruct (single_char p4 Hlo4 (Hhi4 1 eq_refl)) as [c4 ->].
  destruct (single_char p5 Hlo5 (Hhi5 1 eq_refl)) as [c ->].
  destruct (single_char p6 Hlo6 (Hhi6 1 eq_refl)) as [c6 ->].
  cbn in H2, H4, H5, H6.
  rewrite andb_true_r in H2, H4, H6.
  apply N.eqb_eq in H2, H4, H6. subst c2 c4 c6.
  exists ws1, ws2, c, t6. cbn [captured app token].
  repeat split; auto.
  - rewrite andb_true_r, !orb_true_iff, !N.eqb_eq in H5.
    unfold boxChars. simpl.
    destruct H5 as [H | [H | [H | H]]]; subst; auto; discriminate.
  - f_equal.
    match goal with
    | |- firstn ?n ?t = ?w =>
        replace t with (w ++ t6)
          by (unfold token; cbn [app]; rewrite <- !app_assoc; cbn [app];
              now rewrite <- !app_assoc);
        replace n with (length w)
          by (unfold token; rewrite !length_app; cbn [length];
              rewrite !length_app; cbn [length]; lia)
    end.
    now rewrite firstn_app, Nat.sub_diag, firstn_all, app_nil_r.
Qed.

End Patterns.

(* ================================================================= *)
(** ** What the loop bodies add for a line *)

Section PerLine.

Import Regex.

Lemma nth_error_middle (pre : str) c tail :
  nth_error (pre ++ c :: tail) (length pre) = Some c.
Proof. induction pre; simpl; auto. Qed.

Lemma slice_middle (pre mid tail : str) :
  Js.slice (pre ++ mid ++ tail) (length pre) (length pre + length mid) = mid.
Proof.
  unfold Js.slice.
  replace (length pre + length mid - length pre) with (length mid) by lia.
  rewrite skipn_app, Nat.sub_diag, skipn_all, skipn_O. simpl app.
  now rewrite firstn_app, Nat.sub_diag, firstn_all, app_nil_r.
Qed.

Lemma indexOf_first c (pre tail : str) :
  forallb (fun x => negb (N.eqb x c)) pre = true ->
  Js.indexOf c (pre ++ c :: tail) = Some (length pre).
Proof.
  induction pre as [|x pre IH]; cbn [forallb app Js.indexOf length].
  - now rewrite N.eqb_refl.
  - intros H. apply andb_true_iff in H as [Hx H].
    apply negb_true_iff in Hx. rewrite Hx, IH by exact H. reflexivity.
Qed.

Lemma spaces_no_bracket ws :
  forallb isSpace ws = true ->
  forallb (fun x => negb (N.eqb x (Js.chr "["%char))) ws = true.
Proof.
  induction ws as [|x ws IH]; cbn [forallb]; [reflexivity|].
  intros H. apply andb_true_iff in H as [Hx H].
  apply andb_true_iff. split; [|now apply IH].
  apply negb_true_iff, N.eqb_neq. now apply space_not_bracket.
Qed.

Lemma lowered_is_x c :
  In c boxChars -> Js.eqb (Js.toLowerCase [c]) (Js.lit "x") = isX c.
Proof.
  intros [<- | [<- | [<- | []]]]; reflexivity.
Qed.

(** A matching heading line: the hashes are the leading run of ["#"], a
    whitespace character follows them, and the body adds the pair. *)
Theorem headingLine_match l :
  InLanguage headingRe (Doc.text l) ->
  1 <= markerLength (Doc.text l) <= 6
  /\ markerLength (Doc.text l) + 1 <= length (Doc.text l)
  /\ (exists c, nth_error (Doc.text l) (markerLength (Doc.text l)) = Some c
                /\ isSpace c = true)
  /\ headingLine l =
     [ mkRange (Doc.from l)
               (Doc.from l + (markerLength (Doc.text l) + 1))
               (Replace HiddenMarker);
       mkRange (Doc.from l) (Doc.from l)
               (LineClass (headingClass (markerLength (Doc.text l)))) ].
Proof.
  intros H. apply exec_language in H as [m Hm].
  destruct (heading_exec_inv _ Hm)
    as (hashes & sep & content & Ht & Hh & Hlen & Hs & Hslen & _ & ->).
  unfold headingLine. rewrite Hm. cbn [group nth].
  rewrite Ht, heading_markerLength by assumption.
  unfold str, char in *.
  split; [lia|]. split; [rewrite !length_app; lia|].
  split; [|reflexivity].
  destruct sep as [|c sep]; [simpl in Hslen; lia|].
  exists c. split.
  - cbn [app]. apply nth_error_middle.
  - simpl in Hs. now apply andb_true_iff in Hs as [Hc _].
Qed.

Theorem headingLine_nomatch l :
  ~ InLanguage headingRe (Doc.text l) -> headingLine l = [].
Proof.
  intros H. unfold headingLine.
  destruct (exec headingRe (Doc.text l)) as [m|] eqn:E; [|reflexivity].
  exfalso. apply H, exec_language. eauto.
Qed.

(** A matching checkbox line: the first ["["] of the line opens the
    matched token, and the body replaces exactly the token. *)
Theorem checkboxLine_match l :
  InLanguage checkboxRe (Doc.text l) ->
  exists i c,
    Js.indexOf (Js.chr "["%char) (Doc.text l) = Some i
    /\ In c boxChars
    /\ i + 3 <= length (Doc.text l)
    /\ Js.slice (Doc.text l) i (i + 3) = token c
    /\ checkboxLine l =
       [ mkRange (Doc.from l + i) (Doc.from l + i + 3)
           (Replace (Checkbox (mkCheckbox (isX c) (Doc.from l + i)
                                          (Doc.from l + i + 3)))) ].
Proof.
  intros H. apply exec_language in H as [m Hm].
  destruct (checkbox_exec_inv _ Hm)
    as (ws1 & ws2 & c & rest & Ht & Hw1 & Hw2 & Hc & ->).
  assert (Hpre : Doc.text l
                 = (ws1 ++ Js.chr "-"%char :: ws2) ++ token c ++ rest).
  { rewrite Ht. now rewrite <- app_assoc. }
  assert (Hidx : Js.indexOf (Js.chr "["%char) (Doc.text l)
                 = Some (length (ws1 ++ Js.chr "-"%char :: ws2))).
  { rewrite Hpre. unfold token. cbn [app]. apply indexOf_first.
    rewrite forallb_app. cbn [forallb].
    rewrite !spaces_no_bracket by assumption. reflexivity. }
  exists (length (ws1 ++ Js.chr "-"%char :: ws2)), c.
  unfold checkboxLine. rewrite Hm, Hidx. cbn [group nth].
  rewrite lowered_is_x by exact Hc.
  split; [reflexivity|]. split; [exact Hc|]. split; [|split; [|reflexivity]].
  - rewrite Hpre, !length_app. unfold token. cbn [length]. lia.
  - rewrite Hpre at 1.
    change 3 with (length (token c)). apply slice_middle.
Qed.

Theorem checkboxLine_nomatch l :
  ~ InLanguage checkboxRe (Doc.text l) -> checkboxLine l = [].
Proof.
  intros H. unfold checkboxLine.
  destruct (exec checkboxRe (Doc.text l)) as [m|] eqn:E; [|reflexivity].
  exfalso. apply H, exec_language. eauto.
Qed.

(** Either body stays inside its line. *)
Lemma headingLine_inside d l r :
  In l (Doc.lines d) -> In r (headingLine l) ->
  Doc.from l <= rfrom r /\ rfrom r <= rto r /\ rto r <= Doc.to l.
Proof.
  intros Hl Hr. apply line_bounds in Hl as (Hto & _ & _).
  unfold headingLine in Hr.
  destruct (exec headingRe (Doc.text l)) as [m|] eqn:E; [|destruct Hr].
  assert (Hin : InLanguage headingRe (Doc.text l))
    by (apply exec_language; eauto).
  destruct (headingLine_match l Hin) as (_ & Hlen & _ & Heq).
  unfold headingLine in Heq. rewrite E in Heq. rewrite Heq in Hr.
  destruct Hr as [<- | [<- | []]]; cbn [rfrom rto]; lia.
Qed.

Lemma checkboxLine_inside d l r :
  In l (Doc.lines d) -> In r (checkboxLine l) ->
  Doc.from l <= rfrom r /\ rfrom r <= rto r /\ rto r <= Doc.to l.
Proof.
  intros Hl Hr. apply line_bounds in Hl as (Hto & _ & _).
  destruct (exec checkboxRe (Doc.text l)) as [m|] eqn:E.
  - assert (Hin : InLanguage checkboxRe (Doc.text l))
      by (apply exec_language; eauto).
    destruct (checkboxLine_match l Hin) as (i & c & _ & _ & Hlen & _ & Heq).
    rewrite Heq in Hr. destruct Hr as [<- | []]; cbn [rfrom rto]; lia.
  - unfold checkboxLine in Hr. rewrite E in Hr. destruct Hr.
Qed.

End PerLine.

(* ================================================================= *)
(** ** Decorations and the lines they sit on *)

Section OnLines.

Variable body : Doc.Line -> list Range.

Hypothesis body_inside :
  forall d l r,
    In l (Doc.lines d) -> In r (body l) ->
    Doc.from l <= rfrom r /\ rfrom r <= rto r /\ rto r <= Doc.to l.

(** A decoration that meets a line was added for that line. *)
Lemma decorate_touches d active ranges l r :
  In r (decorate body d active ranges) ->
  In l (Doc.lines d) -> touches l r ->
  In r (body l) /\ Doc.number l <> active.
Proof.
  intros Hr Hl [H1 H2].
  apply in_decorate in Hr as (l' & vr & _ & _ & Hl' & _ & _ & Hn & Hr).
  destruct (body_inside _ _ _ Hl' Hr) as (Ha & Hb & Hc).
  pose proof (line_bounds _ _ Hl) as (Hto & _ & _).
  assert (l = l') as ->; [|tauto].
  apply (@line_unique d l l' (Nat.max (rfrom r) (Doc.from l)));
    auto; lia.
Qed.

Lemma decorate_inactive d active ranges a r :
  In r (decorate body d active ranges) ->
  In a (Doc.lines d) -> Doc.number a = active ->
  ~ touches a r.
Proof.
  intros Hr Ha Hn Ht.
  destruct (decorate_touches _ _ _ Hr Ha Ht) as [_ H]. contradiction.
Qed.

Lemma decorate_line d active ranges r :
  In r (decorate body d active ranges) ->
  exists l, In l (Doc.lines d) /\ Doc.number l <> active
            /\ In r (body l)
            /\ Doc.from l <= rfrom r /\ rfrom r <= rto r
            /\ rto r <= Doc.to l.
Proof.
  intros Hr.
  apply in_decorate in Hr as (l & vr & _ & _ & Hl & _ & _ & Hn & Hr).
  exists l. pose proof (body_inside _ _ _ Hl Hr). tauto.
Qed.

End OnLines.

Section Support.

Lemma onLine_touches d l r :
  In l (Doc.lines d) -> rfrom r <= rto r -> onLine l r -> touches l r.
Proof. unfold onLine, touches. lia. Qed.

Lemma visibleInactive_decorated body v a l r :
  visibleInactive v a l -> In r (body l) ->
  In r (decorate body (doc (state v)) (Doc.number a) (visibleRanges v)).
Proof.
  intros (Hl & Hn & vr & Hvr & E & H1 & H2) Hr.
  apply in_decorate. exists l, vr. tauto.
Qed.

Lemma linesFrom_NoDup ls start num : NoDup (Doc.linesFrom ls start num).
Proof.
  revert start num. induction ls as [|t rest IH]; intros start num;
    cbn [Doc.linesFrom]; constructor; [|apply IH].
  intros Hin. apply linesFrom_bounds in Hin. cbn in Hin. lia.
Qed.

Lemma scanned_NoDup d pos to : NoDup (scanned d pos to).
Proof.
  unfold scanned. destruct (pos <=? to); [|constructor].
  apply NoDup_filter, linesFrom_NoDup.
Qed.

Lemma scanned_In d pos to l :
  In l (scanned d pos to) <->
  pos <= to /\ In l (Doc.lines d) /\ pos <= Doc.to l /\ Doc.from l <= to.
Proof.
  unfold scanned. destruct (pos <=? to) eqn:E.
  - apply Nat.leb_le in E.
    rewrite filter_In, andb_true_iff, !Nat.leb_le. tauto.
  - apply Nat.leb_gt in E. simpl. split; [tauto | lia].
Qed.

Lemma addAll_fuel b rs : addAll b rs <> OutOfFuel.
Proof.
  revert b. induction rs as [|r rs IH]; intros b; cbn [addAll];
    [discriminate|].
  unfold add. destruct (addLayers _ _); cbn [bind]; [apply IH | discriminate].
Qed.

(** The fuel a build gives its loop is never used up. *)
Lemma lineLoop_fuel body fuel d active pos to b :
  S to - pos <= fuel ->
  lineLoop body fuel d active pos to b <> OutOfFuel.
Proof.
  revert pos b. induction fuel as [|fuel IH]; intros pos b Hf;
    cbn [lineLoop]; (destruct (pos <=? to) eqn:E; [|discriminate]);
    apply Nat.leb_le in E; [lia|].
  destruct (Doc.lineAt d pos) as [l|] eqn:Hl; [|discriminate].
  apply lineAt_found in Hl as [_ Hl].
  destruct (Doc.number l =? active); [apply IH; lia|].
  pose proof (addAll_fuel b (body l)) as Hb.
  destruct (addAll b (body l)); cbn [bind];
    [apply IH; lia | discriminate | discriminate | contradiction].
Qed.

Lemma rangeLoop_fuel body d active ranges b :
  rangeLoop body d active ranges b <> OutOfFuel.
Proof.
  revert b. induction ranges as [|r rest IH]; intros b;
    cbn [rangeLoop]; [discriminate|].
  pose proof (@lineLoop_fuel body (S (vto r) - vfrom r) d active
                (vfrom r) (vto r) b (Nat.le_refl _)) as H.
  destruct (lineLoop _ _ _ _ _ _ _); cbn [bind];
    [apply IH | discriminate | discriminate | contradiction].
Qed.

Lemma slice_slice (d : str) a b i j :
  i <= j -> j <= b - a ->
  Js.slice (Js.slice d a b) i j = Js.slice d (a + i) (a + j).
Proof.
  intros Hij Hj. unfold Js.slice.
  rewrite skipn_firstn_comm, firstn_firstn, skipn_skipn.
  f_equal; [lia | f_equal; lia].
Qed.

(** A replacement by as many characters as it removes. *)
Lemma applyChange_same_length d f t (ins : str) :
  f <= t -> t <= length d -> length ins = t - f ->
  exists d',
    applyChange d (mkChange f t ins) = Done d'
    /\ d' = firstn f d ++ ins ++ skipn t d
    /\ length d' = length d
    /\ Js.slice d' f t = ins
    /\ forall i, i < f \/ t <= i -> nth_error d' i = nth_error d i.
Proof.
  intros Hft Ht Hins. unfold applyChange. cbn [cfrom cto insert].
  replace (f <=? t) with true by (symmetry; now apply Nat.leb_le).
  replace (t <=? length d) with true by (symmetry; now apply Nat.leb_le).
  eexists. split; [reflexivity|]. split; [reflexivity|].
  assert (Hlf : length (firstn f d) = f) by (apply firstn_length_le; lia).
  split; [|split].
  - rewrite !length_app, Hlf, length_skipn. lia.
  - rewrite <- Hlf at 2. replace t with (length (firstn f d) + length ins)
      at 2 by lia.
    apply slice_middle.
  - intros i [Hi | Hi].
    + rewrite nth_error_app1 by lia.
      rewrite nth_error_firstn.
      now replace (i <? f) with true by (symmetry; apply Nat.ltb_lt; lia).
    + rewrite nth_error_app2 by lia. rewrite nth_error_app2 by lia.
      rewrite nth_error_skipn. f_equal. lia.
Qed.

Lemma headingClass_theme h :
  1 <= h <= 6 -> nth_error themeClasses (h - 1) = Some (headingClass h).
Proof.
  intros H.
  do 7 (destruct h as [|h]; [try lia; reflexivity|]). lia.
Qed.

End Support.

(* ================================================================= *)
(** ** The order the builder asks for *)

Section Order.

Lemma sorted_app (A : Type) (R : A -> A -> Prop) (xs ys : list A) :
  StronglySorted R xs -> StronglySorted R ys ->
  (forall x y, In x xs -> In y ys -> R x y) ->
  StronglySorted R (xs ++ ys).
Proof.
  intros Hx Hy Hxy. induction Hx as [|x xs Hxs IH Hall]; [exact Hy|].
  cbn [app]. constructor.
  - apply IH. intros a b Ha Hb. apply Hxy; [now right | exact Hb].
  - apply Forall_app. split; [exact Hall|].
    apply Forall_forall. intros b Hb. apply Hxy; [now left | exact Hb].
Qed.

Lemma sorted_filter (A : Type) (R : A -> A -> Prop) (f : A -> bool) xs :
  StronglySorted R xs -> StronglySorted R (filter f xs).
Proof.
  induction 1 as [|x xs Hxs IH Hall]; cbn [filter]; [constructor|].
  destruct (f x); [|exact IH]. constructor; [exact IH|].
  rewrite Forall_forall in *. intros y Hy. apply filter_In in Hy as [Hy _].
  now apply Hall.
Qed.

Lemma sorted_flat_map (A B : Type) (Q : A -> A -> Prop) (R : B -> B -> Prop)
      (f : A -> list B) xs :
  StronglySorted Q xs ->
  (forall x, In x xs -> StronglySorted R (f x)) ->
  (forall x y a b, In x xs -> In y xs -> Q x y ->
                   In a (f x) -> In b (f y) -> R a b) ->
  StronglySorted R (flat_map f xs).
Proof.
  induction 1 as [|x xs Hxs IH Hall]; intros Hin Hacross;
    cbn [flat_map]; [constructor|].
  apply sorted_app.
  - apply Hin. now left.
  - apply IH.
    + intros y Hy. apply Hin. now right.
    + intros y z a b Hy Hz. apply Hacross; now right.
  - intros a b Ha Hb. apply in_flat_map in Hb as (y & Hy & Hb).
    rewrite Forall_forall in Hall.
    apply (Hacross x y); auto; [now left | now right].
Qed.

Lemma scanned_sorted d pos to :
  StronglySorted
    (fun l l' => Doc.to l < Doc.from l' /\ Doc.number l < Doc.number l')
    (scanned d pos to).
Proof.
  unfold scanned. destruct (pos <=? to); [|constructor].
  apply sorted_filter, linesFrom_sorted.
Qed.

Lemma ascending_sorted rs :
  ascending rs = true ->
  StronglySorted (fun r r' => vto r <= vfrom r') rs.
Proof.
  induction rs as [|r rs IH]; cbn [ascending]; intros H; constructor.
  - apply IH. now apply andb_true_iff in H as [_ H].
  - apply andb_true_iff in H as [H _]. apply andb_true_iff in H as [_ H].
    rewrite forallb_forall in H. apply Forall_forall.
    intros r' Hr'. now apply Nat.leb_le, H.
Qed.

Lemma ascending_app rs1 rs2 :
  ascending (rs1 ++ rs2) = true ->
  ascending rs1 = true /\ ascending rs2 = true.
Proof.
  induction rs1 as [|r rs1 IH]; cbn [app ascending]; [auto|].
  intros H. apply andb_true_iff in H as [H H2].
  apply andb_true_iff in H as [H0 H1].
  destruct (IH H2) as [Ha Hb]. split; [|exact Hb].
  rewrite H0, Ha, !andb_true_r. rewrite forallb_app in H1.
  now apply andb_true_iff in H1 as [H1 _].
Qed.

(** A layer takes a range that sorts no earlier than its last one, or
    hands it on; so a builder takes a range that sorts no earlier than
    the last range of each of its layers. *)
Lemma addLayers_inOrder ls r :
  (forall x, In x ls -> inOrder x r) ->
  exists ls',
    addLayers ls r = Some ls' /\ forall x, In x ls' -> x = r \/ In x ls.
Proof.
  induction ls as [|last next IH]; intros H; cbn [addLayers].
  - exists [r]. split; [reflexivity|]. intros x [<- | []]. now left.
  - assert (Hlast : inOrder last r) by (apply H; now left).
    replace ((orElse (Z.of_nat (rfrom r) - Z.of_nat (rfrom last))
                     (startSide (value r) - startSide (value last))
              <? 0)%Z) with false.
    2:{ symmetry. apply Z.ltb_ge. unfold orElse.
        destruct Hlast as [Hlt | [Heq Hs]].
        - destruct (Z.eqb_spec (Z.of_nat (rfrom r) - Z.of_nat (rfrom last)) 0);
            lia.
        - rewrite Heq, Z.sub_diag. cbn [Z.eqb]. lia. }
    rewrite andb_false_r.
    destruct (_ <? 0)%Z.
    + destruct IH as (ls' & E & Hls'); [intros x Hx; apply H; now right|].
      rewrite E. eexists. split; [reflexivity|].
      intros x [<- | Hx]; [right; now left|].
      destruct (Hls' x Hx) as [-> | Hx']; [now left | right; now right].
    + eexists. split; [reflexivity|].
      intros x [<- | Hx]; [now left | right; now right].
Qed.

(** Calls that come in the builder's order all go through. *)
Lemma addAll_inOrder rs :
  StronglySorted inOrder rs ->
  forall b,
    (forall x r, In x (layers b) -> In r rs -> inOrder x r) ->
    exists b', addAll b rs = Done b' /\ added b' = added b ++ rs.
Proof.
  induction 1 as [|r rs Hrs IH Hall]; intros b Hb; cbn [addAll].
  - exists b. split; [reflexivity|]. now rewrite app_nil_r.
  - unfold add. destruct r as [f t v]. cbn [rfrom rto value].
    destruct (@addLayers_inOrder (layers b) (mkRange f t v))
      as (ls' & E & Hls').
    { intros x Hx. apply (Hb x); [exact Hx | now left]. }
    rewrite E. cbn [bind].
    destruct (IH (mkBuilder (added b ++ [mkRange f t v]) ls'))
      as (b' & Hb' & Hadd).
    { cbn [layers]. intros x r' Hx Hr'. destruct (Hls' x Hx) as [-> | Hx'].
      - rewrite Forall_forall in Hall. now apply Hall.
      - apply (Hb x); [exact Hx' | now right]. }
    exists b'. split; [exact Hb'|]. rewrite Hadd. cbn [added].
    now rewrite <- app_assoc.
Qed.

Lemma headingLine_language l r :
  In r (headingLine l) -> Regex.InLanguage headingRe (Doc.text l).
Proof.
  unfold headingLine. intros Hr. apply exec_language.
  destruct (Regex.exec headingRe (Doc.text l)); [eauto | destruct Hr].
Qed.

Lemma checkboxLine_language l r :
  In r (checkboxLine l) -> Regex.InLanguage checkboxRe (Doc.text l).
Proof.
  unfold checkboxLine. intros Hr. apply exec_language.
  destruct (Regex.exec checkboxRe (Doc.text l)); [eauto | destruct Hr].
Qed.

Lemma checkboxLine_single l a b :
  In a (checkboxLine l) -> In b (checkboxLine l) -> a = b.
Proof.
  unfold checkboxLine.
  destruct (Regex.exec checkboxRe (Doc.text l)); [|intros []].
  destruct (Js.indexOf _ (Doc.text l)); [|intros []].
  intros [<- | []] [<- | []]. reflexivity.
Qed.

Lemma inOrder_refl r : inOrder r r.
Proof. right. split; [reflexivity | lia]. Qed.

(** The checkbox loop makes its calls in the builder's order: over one
    visible range from line to line, and over ascending ranges at worst
    for the same line again. *)
Lemma checkbox_scan_inOrder d active pos to :
  StronglySorted inOrder
    (flat_map (unlessActive checkboxLine active) (scanned d pos to)).
Proof.
  assert (Hlines : forall l, In l (scanned d pos to) -> In l (Doc.lines d))
    by (intros l Hl; now apply scanned_In in Hl).
  eapply sorted_flat_map; [apply scanned_sorted | |].
  - intros l _. unfold unlessActive, checkboxLine.
    destruct (Doc.number l =? active); [constructor|].
    destruct (Regex.exec checkboxRe (Doc.text l)); [|constructor].
    destruct (Js.indexOf _ (Doc.text l)); repeat constructor.
  - intros l l' r r' Hl Hl' [Hlt _] Hr Hr'.
    unfold unlessActive in Hr, Hr'.
    destruct (Doc.number l =? active); [destruct Hr|].
    destruct (Doc.number l' =? active); [destruct Hr'|].
    pose proof (checkboxLine_inside _ _ _ (Hlines _ Hl) Hr).
    pose proof (checkboxLine_inside _ _ _ (Hlines _ Hl') Hr').
    left. lia.
Qed.

Lemma checkbox_decorate_inOrder d active ranges :
  ascending ranges = true ->
  StronglySorted inOrder (decorate checkboxLine d active ranges).
Proof.
  intros Hasc. unfold decorate.
  eapply sorted_flat_map; [exact (ascending_sorted _ Hasc) | |].
  - intros vr _. apply checkbox_scan_inOrder.
  - intros vr vr' r r' _ _ Hle Hr Hr'. cbv beta in Hle.
    apply in_flat_map in Hr as (l & Hl & Hr).
    apply in_flat_map in Hr' as (l' & Hl' & Hr').
    apply scanned_In in Hl as (_ & Hl & _ & Hfrom).
    apply scanned_In in Hl' as (_ & Hl' & Hto & _).
    unfold unlessActive in Hr, Hr'.
    destruct (Doc.number l =? active); [destruct Hr|].
    destruct (Doc.number l' =? active); [destruct Hr'|].
    pose proof (checkboxLine_inside _ _ _ Hl Hr).
    pose proof (checkboxLine_inside _ _ _ Hl' Hr').
    destruct (lines_apart _ _ _ Hl Hl') as [<- | [[H1 _] | [H1 _]]].
    + rewrite (checkboxLine_single _ _ _ Hr Hr'). apply inOrder_refl.
    + left. lia.
    + exfalso. lia.
Qed.

(** On a valid view the checkbox build returns, and what it returns is
    the decoration of the visible lines other than the active one. *)
Theorem checkboxBuild_decorate v a :
  validView v = true ->
  Doc.lineAt (doc (state v)) (head (selection_main (state v))) = Some a ->
  checkboxBuild v
  = Done (decorate checkboxLine (doc (state v)) (Doc.number a)
                   (visibleRanges v)).
Proof.
  intros Hv Ha. rewrite (checkboxBuild_addAll _ Hv Ha).
  destruct (@addAll_inOrder
              (decorate checkboxLine (doc (state v)) (Doc.number a)
                        (visibleRanges v))
              (checkbox_decorate_inOrder _ _ _ (validView_ascending _ Hv))
              newBuilder) as (b' & E & Hadd); [intros x r []|].
  rewrite E. cbn [bind]. unfold finish. now rewrite Hadd.
Qed.

(** The pair of calls the heading loop makes for a line is out of the
    builder's order: the line class starts where the hidden marker does,
    and the side of a line decoration lies before that of a replacing
    one.  The builder takes the first call and throws on the second. *)
Lemma heading_pair_throws f t cls rest :
  f < t ->
  exists b1,
    add newBuilder f t (Replace HiddenMarker) = Done b1
    /\ add b1 f f (LineClass cls) = OrderError
    /\ addAll newBuilder
         (mkRange f t (Replace HiddenMarker)
            :: mkRange f f (LineClass cls) :: rest)
       = OrderError.
Proof.
  intros Hlt.
  assert (E : add (mkBuilder [mkRange f t (Replace HiddenMarker)]
                             [mkRange f t (Replace HiddenMarker)])
                  f f (LineClass cls) = OrderError).
  { unfold add. cbn [layers addLayers rfrom rto value startSide endSide].
    rewrite Z.sub_diag. unfold orElse.
    destruct (Z.eqb_spec (Z.of_nat f - Z.of_nat t) 0) as [H | _]; [lia|].
    replace (Z.of_nat f - Z.of_nat t <=? 0)%Z with true
      by (symmetry; apply Z.leb_le; lia).
    reflexivity. }
  eexists. split; [reflexivity|]. split; [exact E|].
  cbn [addAll rfrom rto value].
  change (add newBuilder f t (Replace HiddenMarker))
    with (Done (mkBuilder [mkRange f t (Replace HiddenMarker)]
                          [mkRange f t (Replace HiddenMarker)])).
  cbn [bind]. now rewrite E.
Qed.

Lemma flat_map_first (A B : Type) (g : A -> list B) (P : list B -> Prop) xs :
  (forall l r, P l -> P (l ++ r)) ->
  (forall x, In x xs -> g x = [] \/ P (g x)) ->
  flat_map g xs = [] \/ P (flat_map g xs).
Proof.
  intros Happ. induction xs as [|x xs IH]; intros H; cbn [flat_map];
    [now left|].
  destruct (H x (or_introl eq_refl)) as [-> | Hx].
  - apply IH. intros y Hy. apply H. now right.
  - right. now apply Happ.
Qed.

(** What the heading loop has for the builder is nothing, or starts with
    such a pair. *)
Lemma heading_requests (L : list (list Doc.Line)) active :
  let rs := flat_map (flat_map (unlessActive headingLine active)) L in
  rs = []
  \/ exists f t cls rest,
       f < t
       /\ rs = mkRange f t (Replace HiddenMarker)
                 :: mkRange f f (LineClass cls) :: rest.
Proof.
  cbv zeta.
  set (P := fun rs : list Range =>
              exists f t cls rest,
                f < t
                /\ rs = mkRange f t (Replace HiddenMarker)
                          :: mkRange f f (LineClass cls) :: rest).
  assert (Happ : forall l r, P l -> P (l ++ r)).
  { intros l r (f & t & cls & rest & Hlt & ->).
    exists f, t, cls, (rest ++ r). split; [exact Hlt | reflexivity]. }
  apply (flat_map_first _ P _ Happ). intros ls _.
  apply (flat_map_first _ P _ Happ). intros l _.
  unfold unlessActive, headingLine.
  destruct (Doc.number l =? active); [now left|].
  destruct (Regex.exec headingRe (Doc.text l)); [right | now left].
  do 3 eexists. exists []. split; [|reflexivity]. lia.
Qed.

Lemma heading_addAll (L : list (list Doc.Line)) active :
  addAll newBuilder (flat_map (flat_map (unlessActive headingLine active)) L)
  = match flat_map (flat_map (unlessActive headingLine active)) L with
    | [] => Done newBuilder
    | _ :: _ => OrderError
    end.
Proof.
  destruct (heading_requests L active)
    as [-> | (f & t & cls & rest & Hlt & ->)]; [reflexivity|].
  now destruct (heading_pair_throws cls rest Hlt) as (_ & _ & _ & ->).
Qed.

Lemma decorate_scans body d active ranges :
  decorate body d active ranges
  = flat_map (flat_map (unlessActive body active))
             (map (fun r => scanned d (vfrom r) (vto r)) ranges).
Proof.
  unfold decorate. induction ranges as [|r rest IH];
    cbn [flat_map map]; [reflexivity|]. now rewrite IH.
Qed.

(** The heading build on a valid view: it returns the empty set when it
    has nothing to add, and throws the builder's error otherwise. *)
Theorem headingBuild_outcome v a :
  validView v = true ->
  Doc.lineAt (doc (state v)) (head (selection_main (state v))) = Some a ->
  headingBuild v
  = match decorate headingLine (doc (state v)) (Doc.number a)
                   (visibleRanges v) with
    | [] => Done []
    | _ :: _ => OrderError
    end.
Proof.
  intros Hv Ha. rewrite (headingBuild_addAll _ Hv Ha).
  rewrite decorate_scans, heading_addAll.
  now destruct (flat_map _ _).
Qed.

(** It throws as soon as a visible line other than the active one is a
    heading, and returns the empty set when none is. *)
Theorem headingBuild_throws v a l :
  validView v = true ->
  Doc.lineAt (doc (state v)) (head (selection_main (state v))) = Some a ->
  visibleInactive v a l ->
  Regex.InLanguage headingRe (Doc.text l) ->
  headingBuild v = OrderError.
Proof.
  intros Hv Ha Hvis Hm. rewrite (headingBuild_outcome _ Hv Ha).
  destruct (headingLine_match l Hm) as (_ & _ & _ & Heq).
  assert (Hin : In (mkRange (Doc.from l)
                      (Doc.from l + (markerLength (Doc.text l) + 1))
                      (Replace HiddenMarker))
                   (decorate headingLine (doc (state v)) (Doc.number a)
                             (visibleRanges v))).
  { apply (visibleInactive_decorated headingLine _ Hvis).
    rewrite Heq. now left. }
  destruct (decorate _ _ _ _); [destruct Hin | reflexivity].
Qed.

Theorem headingBuild_returns v a :
  validView v = true ->
  Doc.lineAt (doc (state v)) (head (selection_main (state v))) = Some a ->
  (forall l, visibleInactive v a l ->
             ~ Regex.InLanguage headingRe (Doc.text l)) ->
  headingBuild v = Done [].
Proof.
  intros Hv Ha Hno. rewrite (headingBuild_outcome _ Hv Ha).
  destruct (decorate _ _ _ _) as [|r rs] eqn:E; [reflexivity|].
  exfalso.
  assert (Hr : In r (decorate headingLine (doc (state v)) (Doc.number a)
                              (visibleRanges v)))
    by (rewrite E; now left).
  apply in_decorate in Hr as (l & vr & Hvr & Hle & Hl & H1 & H2 & Hn & Hr).
  apply (Hno l).
  - split; [exact Hl|]. split; [exact Hn|]. exists vr. auto.
  - exact (headingLine_language _ _ Hr).
Qed.

(** Either way the heading build ends in one of these two. *)
Lemma headingBuild_cases v :
  validView v = true ->
  headingBuild v = Done [] \/ headingBuild v = OrderError.
Proof.
  intros Hv. destruct (validView_inv v Hv) as [[a Ha] _].
  rewrite (headingBuild_outcome _ Hv Ha).
  destruct (decorate _ _ _ _); auto.
Qed.

End Order.

(* ================================================================= *)
(** ** Brackets that are not checkbox tokens *)

Section Malformed.

Lemma prefix_unique (P : char -> bool) (pre pre' : str) c c' t t' :
  forallb P pre = true -> forallb P pre' = true ->
  P c = false -> P c' = false ->
  pre ++ c :: t = pre' ++ c' :: t' ->
  pre = pre' /\ c = c' /\ t = t'.
Proof.
  revert pre'. induction pre as [|x pre IH]; intros [|x' pre'];
    cbn [forallb app]; intros Hp Hp' Hc Hc' E.
  - injection E as -> ->. auto.
  - injection E as -> _. apply andb_true_iff in Hp' as [Hx _]. congruence.
  - injection E as -> _. apply andb_true_iff in Hp as [Hx _]. congruence.
  - injection E as -> E.
    apply andb_true_iff in Hp as [_ Hp]. apply andb_true_iff in Hp' as [_ Hp'].
    destruct (IH pre' Hp Hp' Hc Hc' E) as (-> & -> & ->). auto.
Qed.

Lemma malformed_not_checkbox ws1 ws2 interior rest :
  forallb Regex.isSpace ws1 = true ->
  forallb Regex.isSpace ws2 = true ->
  ~ In (Js.chr "]"%char) interior ->
  (forall c, In c boxChars -> interior <> [c]) ->
  ~ Regex.InLanguage checkboxRe
      (ws1 ++ Js.chr "-"%char :: ws2
           ++ Js.chr "["%char :: interior ++ Js.chr "]"%char :: rest).
Proof.
  intros Hw1 Hw2 Hclose Hint Hin.
  apply exec_language in Hin as [m Hm].
  destruct (checkbox_exec_inv _ Hm)
    as (w1 & w2 & c & rest' & Ht & Hw1' & Hw2' & Hc & _).
  apply (prefix_unique Regex.isSpace) in Ht as (_ & _ & Ht);
    [|assumption|assumption|reflexivity|reflexivity].
  unfold token in Ht. cbn [app] in Ht.
  apply (prefix_unique Regex.isSpace) in Ht as (_ & _ & Ht);
    [|assumption|assumption|reflexivity|reflexivity].
  destruct interior as [|x interior]; cbn [app] in Ht.
  - injection Ht as <- _.
    destruct Hc as [H | [H | [H | []]]]; discriminate H.
  - injection Ht as -> Ht. destruct interior as [|y interior]; cbn [app] in Ht.
    + now apply (Hint c).
    + injection Ht as -> _. apply Hclose. right. now left.
Qed.

End Malformed.

(* ================================================================= *)
(** ** Widget equality *)

(** The equality the checkbox widget hands to the engine is equality of
    its three fields. *)
Lemma CheckboxWidget_eq_true this other :
  CheckboxWidget_eq this other = true <-> this = other.
Proof.
  destruct this as [c f t], other as [c' f' t']. unfold CheckboxWidget_eq.
  cbn [checked wfrom wto].
  rewrite !andb_true_iff, eqb_true_iff, !Nat.eqb_eq. split.
  - intros [[-> ->] ->]. reflexivity.
  - intros [= -> -> ->]. auto.
Qed.

(* ================================================================= *)
(** ** The scenarios of the specification *)

(** ["## Hola"] with the caret elsewhere: the build throws the builder's
    error; the marker is not hidden and the line gets no class. *)
Example scenario_heading_elsewhere :
  headingBuild (initialView 20) = OrderError.
Proof. reflexivity. Qed.

(** The caret on the heading line: no decoration. *)
Example scenario_heading_active :
  headingBuild (initialView 4) = Done [].
Proof. reflexivity. Qed.

(** ["- [ ] Comprar leche"], caret elsewhere: an unchecked box, and a
    click rewrites the line to ["- [x] Comprar leche"]. *)
Example scenario_checkbox_click :
  checkboxBuild (initialView 0)
  = Done [ mkRange 19 22 (Replace (Checkbox (mkCheckbox false 19 22)));
           mkRange 39 42 (Replace (Checkbox (mkCheckbox true 39 42))) ]
  /\ (d <- applyChange initialDoc (mkChange 19 22 (Js.lit "[x]")) ;;
      Done (Js.slice d 17 36))
     = Done (Js.lit "- [x] Comprar leche")
  /\ (s <- toggle (mkCheckbox false 19 22) (mkSurface initialDoc false) ;;
      Done (Js.slice (content s) 17 36, focused s))
     = Done (Js.lit "- [x] Comprar leche", true).
Proof. repeat split. Qed.

(** ["-[X]Go"]: the pattern needs no spaces and takes either case. *)
Example scenario_no_spaces :
  checkboxLine (Doc.mkLine 0 6 1 (Js.lit "-[X]Go"))
  = [ mkRange 1 4 (Replace (Checkbox (mkCheckbox true 1 4))) ].
Proof. reflexivity. Qed.

(* ################################################################# *)
(** * The claims *)

(** C1. For every document, selection and viewport, neither the heading
    decorator nor the checkbox decorator adds a decoration for the active
    line (the line that holds the selection head), whatever its text is.
    Every range either loop hands to the builder lies inside a line of
    the document other than the active one and does not meet the active
    line.  The checkbox build returns the set of its ranges.  The heading
    build returns no set but the empty one; it returns it, whatever the
    active line holds, when no other visible line is a heading. *)
Theorem active_line_undecorated (v : EditorView) :
  validView v = true ->
  exists a cs,
    Doc.lineAt (doc (state v)) (head (selection_main (state v))) = Some a
    /\ Doc.from a <= head (selection_main (state v)) <= Doc.to a
    /\ checkboxBuild v = Done cs
    /\ headingBuild v
       = (b <- addAll newBuilder
                      (decorate headingLine (doc (state v)) (Doc.number a)
                                (visibleRanges v)) ;;
          Done (finish b))
    /\ (forall hs, headingBuild v = Done hs -> hs = [])
    /\ ((forall l, visibleInactive v a l ->
                   ~ Regex.InLanguage headingRe (Doc.text l)) ->
        headingBuild v = Done [])
    /\ forall r,
         In r (decorate headingLine (doc (state v)) (Doc.number a)
                        (visibleRanges v) ++ cs) ->
         ~ touches a r
         /\ exists l, In l (Doc.lines (doc (state v)))
                      /\ Doc.number l <> Doc.number a
                      /\ Doc.from l <= rfrom r
                      /\ rto r <= Doc.to l.
Proof.
  intros Hv. destruct (validView_inv v Hv) as [[a Ha] _].
  exists a. eexists.
  pose proof (lineAt_found _ _ Ha) as [Hain Hhead].
  split; [exact Ha|]. split; [exact Hhead|].
  split; [exact (@checkboxBuild_decorate v a Hv Ha)|].
  split; [exact (@headingBuild_addAll v a Hv Ha)|].
  split; [|split; [exact (@headingBuild_returns v a Hv Ha)|]].
  { intros hs Hhs.
    destruct (headingBuild_cases v Hv) as [E | E]; rewrite E in Hhs;
      [now injection Hhs as <- | discriminate Hhs]. }
  intros r Hr. apply in_app_or in Hr as [Hr | Hr].
  - split.
    + exact (@decorate_inactive _ headingLine_inside _ _ _ a r
               Hr Hain eq_refl).
    + destruct (@decorate_line _ headingLine_inside _ _ _ _ Hr)
        as (l & Hl & Hn & _ & H1 & _ & H2).
      exists l. auto.
  - split.
    + exact (@decorate_inactive _ checkboxLine_inside _ _ _ a r
               Hr Hain eq_refl).
    + destruct (@decorate_line _ checkboxLine_inside _ _ _ _ Hr)
        as (l & Hl & Hn & _ & H1 & _ & H2).
      exists l. auto.
Qed.

Lemma active_line_undecorated_witness :
  validView (initialView 0) = true
  /\ exists a cs,
       Doc.lineAt initialDoc 0 = Some a
       /\ Doc.from a <= 0 <= Doc.to a
       /\ checkboxBuild (initialView 0) = Done cs
       /\ headingBuild (initialView 0) = Done []
       /\ forall r, In r cs ->
            ~ touches a r
            /\ exists l, In l (Doc.lines initialDoc)
                         /\ Doc.number l <> Doc.number a
                         /\ Doc.from l <= rfrom r
                         /\ rto r <= Doc.to l.
Proof.
  split; [reflexivity|].
  destruct (active_line_undecorated (initialView 0) eq_refl)
    as (a & cs & Ha & Hhead & Hc & Hh & _ & _ & H).
  exists a, cs. split; [exact Ha|]. split; [exact Hhead|].
  split; [exact Hc|]. split; [reflexivity|].
  intros r Hr. apply H, in_or_app. now right.
Defined.

(** C2. The heading decorator does not do what the sentence says.  For a
    visible line other than the active one whose text matches the
    heading pattern, the loop calls the builder twice: with the marker
    characters and one character after them, to be replaced by a hidden
    widget, and then with the start of the line, to be given the class
    [md-h<level>].  The builder takes the first call and throws on the
    second, which starts where the first does and sorts before it.  So
    on a view with such a line the build throws its error, and with it
    the constructor and every update that rebuilds: no marker is hidden
    and no class is attached. *)
Theorem heading_decoration_throws (v : EditorView) (a l : Doc.Line) :
  validView v = true ->
  Doc.lineAt (doc (state v)) (head (selection_main (state v))) = Some a ->
  visibleInactive v a l ->
  Regex.InLanguage headingRe (Doc.text l) ->
  let level := markerLength (Doc.text l) in
  let hide := mkRange (Doc.from l) (Doc.from l + (level + 1))
                      (Replace HiddenMarker) in
  let style := mkRange (Doc.from l) (Doc.from l)
                       (LineClass (headingClass level)) in
  1 <= level <= 6
  /\ nth_error themeClasses (level - 1) = Some (headingClass level)
  /\ headingLine l = [hide; style]
  /\ (exists b1,
        add newBuilder (rfrom hide) (rto hide) (value hide) = Done b1
        /\ add b1 (rfrom style) (rto style) (value style) = OrderError)
  /\ headingBuild v = OrderError
  /\ headingNew v = OrderError
  /\ forall p u,
       view u = v -> reportsChange u = true ->
       headingUpdate p u = OrderError.
Proof.
  intros Hv Ha Hvis Hm level hide style.
  destruct (headingLine_match l Hm) as (Hlevel & _ & _ & Heq).
  fold level in Hlevel, Heq. fold hide style in Heq.
  pose proof (@headingBuild_throws v a l Hv Ha Hvis Hm) as Hthrow.
  split; [exact Hlevel|]. split; [now apply headingClass_theme|].
  split; [exact Heq|].
  split; [|split; [exact Hthrow|split]].
  - destruct (@heading_pair_throws (Doc.from l) (Doc.from l + (level + 1))
                (headingClass level) [])
      as (b1 & H1 & H2 & _); [lia|].
    exists b1. split; [exact H1 | exact H2].
  - unfold headingNew. now rewrite Hthrow.
  - intros p u Hu Hc. unfold headingUpdate.
    fold (reportsChange u). now rewrite Hc, Hu, Hthrow.
Qed.

Lemma heading_decoration_throws_witness :
  validView (initialView 20) = true
  /\ Regex.InLanguage headingRe (Js.lit "## Hola Heading")
  /\ headingLine (Doc.mkLine 0 15 1 (Js.lit "## Hola Heading"))
     = [ mkRange 0 3 (Replace HiddenMarker);
         mkRange 0 0 (LineClass (Js.lit "md-h2")) ]
  /\ headingBuild (initialView 20) = OrderError
  /\ headingNew (initialView 20) = OrderError.
Proof.
  assert (Hm : Regex.InLanguage headingRe (Js.lit "## Hola Heading")).
  { apply exec_language. eexists. vm_compute. reflexivity. }
  split; [reflexivity|]. split; [exact Hm|].
  destruct (@heading_decoration_throws (initialView 20)
              (Doc.mkLine 17 36 3 (Js.lit "- [ ] Comprar leche"))
              (Doc.mkLine 0 15 1 (Js.lit "## Hola Heading"))
              eq_refl eq_refl)
    as (_ & _ & Hl & _ & Hb & Hn & _).
  { split; [vm_compute; auto|]. split; [vm_compute; lia|].
    exists (mkVisible 0 127). vm_compute. repeat split; auto; lia. }
  { exact Hm. }
  split; [exact Hl|]. split; [exact Hb | exact Hn].
Defined.

(** On a matching line of the document the bracket token is where the
    body puts its one range. *)
Lemma checkboxLine_match_doc d l :
  In l (Doc.lines d) ->
  Regex.InLanguage checkboxRe (Doc.text l) ->
  exists i c,
    Js.indexOf (Js.chr "["%char) (Doc.text l) = Some i
    /\ In c boxChars
    /\ Doc.from l + i + 3 <= Doc.to l
    /\ Js.slice d (Doc.from l + i) (Doc.from l + i + 3) = token c
    /\ checkboxLine l =
       [ mkRange (Doc.from l + i) (Doc.from l + i + 3)
           (Replace (Checkbox (mkCheckbox (isX c) (Doc.from l + i)
                                          (Doc.from l + i + 3)))) ].
Proof.
  intros Hl Hin.
  destruct (checkboxLine_match l Hin) as (i & c & Hi & Hc & Hlen & Hs & Heq).
  pose proof (line_bounds _ _ Hl) as (Hto & Hd & _).
  exists i, c. split; [exact Hi|]. split; [exact Hc|]. split; [lia|].
  split; [|exact Heq].
  rewrite <- Hs, (line_text _ _ Hl), slice_slice by lia.
  f_equal. lia.
Qed.

Lemma checkboxLine_token d l r :
  In l (Doc.lines d) -> In r (checkboxLine l) ->
  exists i c,
    In c boxChars
    /\ r = mkRange (Doc.from l + i) (Doc.from l + i + 3)
             (Replace (Checkbox (mkCheckbox (isX c) (Doc.from l + i)
                                            (Doc.from l + i + 3))))
    /\ Js.slice d (Doc.from l + i) (Doc.from l + i + 3) = token c
    /\ Doc.from l + i + 3 <= length d.
Proof.
  intros Hl Hr.
  assert (Hin : Regex.InLanguage checkboxRe (Doc.text l)).
  { apply exec_language. unfold checkboxLine in Hr.
    destruct (Regex.exec checkboxRe (Doc.text l)); [eauto | destruct Hr]. }
  destruct (checkboxLine_match_doc _ _ Hl Hin)
    as (i & c & _ & Hc & Hlen & Hs & Heq).
  rewrite Heq in Hr. destruct Hr as [<- | []].
  pose proof (line_bounds _ _ Hl) as (_ & Hd & _).
  exists i, c. repeat split; auto. lia.
Qed.

(** C3. A non-active visible line carries a checkbox decoration exactly
    when its text matches the checkbox pattern.  On a match the three
    characters of the bracket token are replaced by a checkbox that is
    checked exactly when the token holds [x] or [X], and nothing else
    is put on the line.  A line whose brackets hold anything but one of
    space, [x], [X] gets no decoration, and the build still returns. *)
Theorem checkbox_decoration (v : EditorView) :
  validView v = true ->
  exists a ds,
    Doc.lineAt (doc (state v)) (head (selection_main (state v))) = Some a
    /\ checkboxBuild v = Done ds
    /\ forall l, visibleInactive v a l ->
         ((exists r, In r ds /\ onLine l r)
          <-> Regex.InLanguage checkboxRe (Doc.text l))
         /\ (Regex.InLanguage checkboxRe (Doc.text l) ->
             exists i c,
               Js.indexOf (Js.chr "["%char) (Doc.text l) = Some i
               /\ In c boxChars
               /\ Js.slice (doc (state v)) (Doc.from l + i)
                           (Doc.from l + i + 3) = token c
               /\ let box :=
                    mkRange (Doc.from l + i) (Doc.from l + i + 3)
                      (Replace
                         (Checkbox (mkCheckbox (isX c) (Doc.from l + i)
                                               (Doc.from l + i + 3)))) in
                  In box ds
                  /\ forall r, In r ds -> onLine l r -> r = box)
         /\ (forall ws1 ws2 interior rest,
               Doc.text l
               = ws1 ++ Js.chr "-"%char :: ws2
                     ++ Js.chr "["%char :: interior
                     ++ Js.chr "]"%char :: rest ->
               forallb Regex.isSpace ws1 = true ->
               forallb Regex.isSpace ws2 = true ->
               ~ In (Js.chr "]"%char) interior ->
               (forall c, In c boxChars -> interior <> [c]) ->
               forall r, In r ds -> ~ onLine l r).
Proof.
  intros Hv. destruct (validView_inv v Hv) as [[a Ha] _].
  exists a. eexists. split; [exact Ha|].
  split; [exact (@checkboxBuild_decorate v a Hv Ha)|].
  intros l Hvis.
  assert (Hl : In l (Doc.lines (doc (state v)))) by apply Hvis.
  assert (Hon : forall r,
             In r (decorate checkboxLine (doc (state v)) (Doc.number a)
                            (visibleRanges v)) ->
             onLine l r -> In r (checkboxLine l)).
  { intros r Hr Ho.
    destruct (@decorate_line _ checkboxLine_inside _ _ _ _ Hr)
      as (_ & _ & _ & _ & _ & Hle & _).
    apply (@decorate_touches _ checkboxLine_inside _ _ _ l r Hr Hl).
    unfold onLine, touches in *. lia. }
  assert (Hnone : ~ Regex.InLanguage checkboxRe (Doc.text l) ->
                  forall r,
                    In r (decorate checkboxLine (doc (state v))
                                   (Doc.number a) (visibleRanges v)) ->
                    ~ onLine l r).
  { intros Hno r Hr Ho. specialize (Hon r Hr Ho).
    now rewrite (checkboxLine_nomatch l Hno) in Hon. }
  split; [|split].
  - split.
    + intros (r & Hr & Ho). specialize (Hon r Hr Ho).
      apply exec_language. unfold checkboxLine in Hon.
      destruct (Regex.exec checkboxRe (Doc.text l)); [eauto | destruct Hon].
    + intros Hm.
      destruct (checkboxLine_match_doc _ _ Hl Hm)
        as (i & c & Hi & Hc & Hlen & _ & Heq).
      eexists. split.
      * apply (visibleInactive_decorated checkboxLine _ Hvis).
        rewrite Heq. now left.
      * unfold onLine. cbn [rfrom]. lia.
  - intros Hm.
    destruct (checkboxLine_match_doc _ _ Hl Hm)
      as (i & c & Hi & Hc & _ & Hs & Heq).
    exists i, c. split; [exact Hi|]. split; [exact Hc|]. split; [exact Hs|].
    split.
    + apply (visibleInactive_decorated checkboxLine _ Hvis).
      rewrite Heq. now left.
    + intros r Hr Ho. specialize (Hon r Hr Ho). rewrite Heq in Hon.
      destruct Hon as [<- | []]. reflexivity.
  - intros ws1 ws2 interior rest Ht Hw1 Hw2 Hclose Hint.
    apply Hnone. rewrite Ht. now apply malformed_not_checkbox.
Qed.

Lemma checkbox_decoration_witness :
  validView tasksView = true
  /\ exists ds,
       checkboxBuild tasksView = Done ds
       /\ In (mkRange 2 5 (Replace (Checkbox (mkCheckbox true 2 5)))) ds
       /\ forall r, In r ds ->
                    ~ onLine (Doc.mkLine 8 16 2 (Js.lit "- [ x] b")) r.
Proof.
  split; [reflexivity|].
  destruct (checkbox_decoration tasksView eq_refl)
    as (a & ds & Ha & Hds & H).
  exists ds. split; [exact Hds|].
  vm_compute in Ha. injection Ha as <-.
  split.
  - destruct (H (Doc.mkLine 0 7 1 (Js.lit "- [X] a"))) as (_ & Hm & _).
    { split; [vm_compute; auto|]. split; [vm_compute; lia|].
      exists (mkVisible 0 17). vm_compute. repeat split; auto; lia. }
    destruct Hm as (i & c & Hi & _ & Hs & Hbox & _).
    { apply exec_language. eexists. vm_compute. reflexivity. }
    vm_compute in Hi. injection Hi as <-.
    vm_compute in Hs. injection Hs as <-.
    exact Hbox.
  - destruct (H (Doc.mkLine 8 16 2 (Js.lit "- [ x] b"))) as (_ & _ & Hbad).
    { split; [vm_compute; auto|]. split; [vm_compute; lia|].
      exists (mkVisible 0 17). vm_compute. repeat split; auto; lia. }
    apply (Hbad [] [Js.chr " "%char] [Js.chr " "%char; Js.chr "x"%char]
                (Js.lit " b")).
    + reflexivity.
    + reflexivity.
    + reflexivity.
    + intros [E | [E | []]]; discriminate E.
    + intros c _ E. discriminate E.
Defined.

(** C4. Toggling the control of a checkbox decoration replaces, in the
    document, exactly the three characters of the bracket token: an
    unchecked token [[ ]] becomes [[x]], a checked one ([[x]] or [[X]])
    becomes [[ ]]; the document keeps its length and every character
    outside the token; the focus goes back to the editor. *)
Theorem toggle_rewrites_token (v : EditorView) :
  validView v = true ->
  exists ds,
    checkboxBuild v = Done ds
    /\ forall r w foc,
         In r ds -> value r = Replace (Checkbox w) ->
         exists c d',
           In c boxChars
           /\ checked w = isX c
           /\ rfrom r = wfrom w /\ rto r = wto w /\ wto w = wfrom w + 3
           /\ Js.slice (doc (state v)) (wfrom w) (wto w) = token c
           /\ toggle w (mkSurface (doc (state v)) foc)
              = Done (mkSurface d' true)
           /\ length d' = length (doc (state v))
           /\ Js.slice d' (wfrom w) (wto w)
              = (if checked w then Js.lit "[ ]" else Js.lit "[x]")
           /\ forall i, i < wfrom w \/ wto w <= i ->
                        nth_error d' i = nth_error (doc (state v)) i.
Proof.
  intros Hv. destruct (validView_inv v Hv) as [[a Ha] _].
  eexists. split; [exact (@checkboxBuild_decorate v a Hv Ha)|].
  intros r w foc Hr Hw.
  destruct (@decorate_line _ checkboxLine_inside _ _ _ _ Hr)
    as (l & Hl & _ & Hrl & _).
  destruct (checkboxLine_token _ _ _ Hl Hrl) as (i & c & Hc & -> & Hs & Hlen).
  cbn [value] in Hw. injection Hw as <-. cbn [checked wfrom wto rfrom rto].
  set (f := Doc.from l + i) in *.
  destruct (@applyChange_same_length (doc (state v)) f (f + 3)
              (if negb (isX c) then Js.lit "[x]" else Js.lit "[ ]"))
    as (d' & Happly & _ & Hlen' & Hslice & Hout);
    [lia | exact Hlen | destruct (isX c); cbn; lia |].
  exists c, d'. split; [exact Hc|]. split; [reflexivity|].
  split; [reflexivity|]. split; [reflexivity|]. split; [reflexivity|].
  split; [exact Hs|]. split; [|split; [exact Hlen'|split; [|exact Hout]]].
  - unfold toggle, onChange, click, toDOM.
    cbn [input_checked checked wfrom wto content]. now rewrite Happly.
  - rewrite Hslice. now destruct (isX c).
Qed.

Lemma toggle_rewrites_token_witness :
  validView (initialView 0) = true
  /\ exists d',
       toggle (mkCheckbox false 19 22) (mkSurface initialDoc false)
       = Done (mkSurface d' true)
       /\ Js.slice initialDoc 19 22 = Js.lit "[ ]"
       /\ Js.slice d' 19 22 = Js.lit "[x]"
       /\ length d' = length initialDoc
       /\ forall i, i < 19 \/ 22 <= i ->
                    nth_error d' i = nth_error initialDoc i.
Proof.
  split; [reflexivity|].
  destruct (toggle_rewrites_token (initialView 0) eq_refl) as (ds & Hds & H).
  vm_compute in Hds. injection Hds as <-.
  destruct (H (mkRange 19 22 (Replace (Checkbox (mkCheckbox false 19 22))))
              (mkCheckbox false 19 22) false (or_introl eq_refl) eq_refl)
    as (c & d' & _ & _ & _ & _ & _ & _ & Ht & Hlen & Hs & Hout).
  exists d'. split; [exact Ht|]. split; [reflexivity|].
  split; [exact Hs|]. split; [exact Hlen | exact Hout].
Defined.

(** C5. The decoration set of a frame is a function of the visible
    ranges, the number of the active line and the document text: two
    views that agree on these three get equal sets from either decorator;
    and an update that reports a document change leaves in the plugin
    what a plugin built anew for the updated view holds, whatever it held
    before. *)
Theorem decorations_function_of_frame (v1 v2 : EditorView)
        (a1 a2 : Doc.Line) :
  doc (state v1) = doc (state v2) ->
  visibleRanges v1 = visibleRanges v2 ->
  Doc.lineAt (doc (state v1)) (head (selection_main (state v1))) = Some a1 ->
  Doc.lineAt (doc (state v2)) (head (selection_main (state v2))) = Some a2 ->
  Doc.number a1 = Doc.number a2 ->
  headingBuild v1 = headingBuild v2
  /\ checkboxBuild v1 = checkboxBuild v2
  /\ forall p u,
       docChanged u = true ->
       headingUpdate p u = headingNew (view u)
       /\ checkboxUpdate p u = checkboxNew (view u).
Proof.
  intros Hd Hr H1 H2 Hn. split; [|split].
  - unfold headingBuild. rewrite H1, H2, Hd, Hr, Hn. reflexivity.
  - unfold checkboxBuild. rewrite H1, H2, Hd, Hr, Hn. reflexivity.
  - intros p u Hc. unfold headingUpdate, checkboxUpdate. rewrite Hc.
    split; reflexivity.
Qed.

Lemma decorations_function_of_frame_witness :
  headingBuild (initialView 17) = headingBuild (initialView 30)
  /\ checkboxBuild (initialView 17) = checkboxBuild (initialView 30)
  /\ forall p u,
       docChanged u = true ->
       headingUpdate p u = headingNew (view u)
       /\ checkboxUpdate p u = checkboxNew (view u).
Proof.
  exact (@decorations_function_of_frame
           (initialView 17) (initialView 30)
           (Doc.mkLine 17 36 3 (Js.lit "- [ ] Comprar leche"))
           (Doc.mkLine 17 36 3 (Js.lit "- [ ] Comprar leche"))
           eq_refl eq_refl eq_refl eq_refl eq_refl).
Defined.



(** C7. Building twice on an unchanged document, selection and viewport
    gives the same decoration set, for the heading decorator and for the
    checkbox decorator; so an update that brings a view with the same
    document, selection and viewport leaves a plugin as its constructor
    made it, whether it rebuilds or not. *)
Theorem rebuild_idempotent (v v' : EditorView) :
  state v = state v' ->
  visibleRanges v = visibleRanges v' ->
  headingBuild v = headingBuild v'
  /\ checkboxBuild v = checkboxBuild v'
  /\ forall u p,
       view u = v' ->
       (headingNew v = Done p -> headingUpdate p u = Done p)
       /\ (checkboxNew v = Done p -> checkboxUpdate p u = Done p).
Proof.
  intros Hs Hr.
  assert (Hh : headingBuild v = headingBuild v')
    by (unfold headingBuild; now rewrite Hs, Hr).
  assert (Hc : checkboxBuild v = checkboxBuild v')
    by (unfold checkboxBuild; now rewrite Hs, Hr).
  split; [exact Hh|]. split; [exact Hc|].
  intros u p Hu. unfold headingUpdate, checkboxUpdate, headingNew, checkboxNew.
  rewrite Hu, <- Hh, <- Hc.
  destruct (docChanged u || viewportChanged u || selectionSet u); auto.
Qed.

Lemma rebuild_idempotent_witness :
  headingBuild (initialView 20)
  = headingBuild (mkView (state (initialView 20))
                         (visibleRanges (initialView 20)) true [[]])
  /\ checkboxBuild (initialView 20)
     = checkboxBuild (mkView (state (initialView 20))
                             (visibleRanges (initialView 20)) true [[]])
  /\ forall u p,
       view u = mkView (state (initialView 20))
                       (visibleRanges (initialView 20)) true [[]] ->
       (headingNew (initialView 20) = Done p -> headingUpdate p u = Done p)
       /\ (checkboxNew (initialView 20) = Done p ->
           checkboxUpdate p u = Done p).
Proof.
  exact (@rebuild_idempotent
           (initialView 20)
           (mkView (state (initialView 20))
                   (visibleRanges (initialView 20)) true [[]])
           eq_refl eq_refl).
Defined.

(** C8. The export action leaves the component as it is when no editor
    is mounted; with an editor mounted it stores the whole text of the
    current document, unchanged, whatever decorations the view shows. *)
Theorem export_raw_text (this : EditorComponent) :
  (cview this = None -> export this = this)
  /\ forall v,
       cview this = Some v ->
       exported (export this) = doc (state v)
       /\ cview (export this) = Some v
       /\ forall sets foc old,
            exported
              (export (mkComponent
                         (Some (mkView (state v) (visibleRanges v) foc sets))
                         old))
            = exported (export this).
Proof.
  unfold export. split.
  - intros ->. reflexivity.
  - intros v ->. cbn. auto.
Qed.

Lemma export_raw_text_witness :
  export (mkComponent None (Js.lit "old")) = mkComponent None (Js.lit "old")
  /\ exported (export (mkComponent (Some (initialView 20)) []))
     = initialDoc.
Proof.
  split.
  - exact (proj1 (export_raw_text (mkComponent None (Js.lit "old"))) eq_refl).
  - exact (proj1 (proj2 (export_raw_text
                           (mkComponent (Some (initialView 20)) []))
                        (initialView 20) eq_refl)).
Defined.

(** C9. In a line that matches the checkbox pattern the first ["["] is
    the opening bracket of the matched token: [indexOf] finds it (it is
    never [-1]), the matched text ends three characters after it, and
    those three characters are the token [[c]] with [c] the group. *)
Theorem first_bracket_is_token (text : str) (m : list str) :
  Regex.exec checkboxRe text = Some m ->
  exists i c,
    Js.indexOf (Js.chr "["%char) text = Some i
    /\ In c boxChars
    /\ Regex.group m 1 = [c]
    /\ i + 3 = length (Regex.group m 0)
    /\ Regex.group m 0 = firstn (i + 3) text
    /\ Js.slice text i (i + 3) = token c.
Proof.
  intros Hm.
  destruct (checkbox_exec_inv _ Hm)
    as (ws1 & ws2 & c & rest & Ht & Hw1 & Hw2 & Hc & ->).
  set (pre := ws1 ++ Js.chr "-"%char :: ws2).
  assert (Hpre : text = pre ++ token c ++ rest)
    by (rewrite Ht; unfold pre; now rewrite <- app_assoc).
  assert (Hwhole : ws1 ++ Js.chr "-"%char :: ws2 ++ token c = pre ++ token c)
    by (unfold pre; now rewrite <- app_assoc).
  exists (length pre), c. cbn [Regex.group nth]. rewrite Hwhole.
  split; [|split; [exact Hc|split; [reflexivity|split; [|split]]]].
  - rewrite Hpre. unfold token. cbn [app]. apply indexOf_first.
    unfold pre. rewrite forallb_app. cbn [forallb].
    rewrite !spaces_no_bracket by assumption. reflexivity.
  - rewrite length_app. reflexivity.
  - rewrite Hpre, app_assoc.
    change 3 with (length (token c)). rewrite <- length_app.
    now rewrite firstn_app, Nat.sub_diag, firstn_all, app_nil_r.
  - rewrite Hpre. change 3 with (length (token c)). apply slice_middle.
Qed.

Lemma first_bracket_is_token_witness :
  Regex.exec checkboxRe (Js.lit "-[X]Go")
  = Some [Js.lit "-[X]"; Js.lit "X"]
  /\ exists i c,
       Js.indexOf (Js.chr "["%char) (Js.lit "-[X]Go") = Some i
       /\ In c boxChars
       /\ Regex.group [Js.lit "-[X]"; Js.lit "X"] 1 = [c]
       /\ i + 3 = length (Regex.group [Js.lit "-[X]"; Js.lit "X"] 0)
       /\ Regex.group [Js.lit "-[X]"; Js.lit "X"] 0
          = firstn (i + 3) (Js.lit "-[X]Go")
       /\ Js.slice (Js.lit "-[X]Go") i (i + 3) = token c.
Proof.
  split; [reflexivity|].
  exact (@first_bracket_is_token (Js.lit "-[X]Go")
           [Js.lit "-[X]"; Js.lit "X"] eq_refl).
Defined.

(** C10. The scan of a visible range terminates, but the heading loop
    does not get through the range as the sentence has it.  An iteration
    moves [pos] to [line.to + 1], strictly past where it was;
    [to + 1 - pos] iterations are enough for the loop to end, which is
    the fuel the builds give it, so neither loop nor build runs out.  A
    loop takes the lines the range touches, each once and in document
    order, and makes for each the calls of its body: none or the pair of
    marker and line class for the heading decorator, at most one for the
    checkbox decorator; it ends as the builder does on these calls.  On
    a new builder the checkbox loop returns, having added its range for
    every line; the heading loop returns only if it has no call to make,
    and ends with the builder's error at the first heading line
    otherwise, the lines after it unvisited. *)
Theorem scan_terminates (d : Doc.Text) (active pos to fuel : nat)
        (b : RangeSetBuilder) :
  to <= length d ->
  S to - pos <= fuel ->
  (forall p l, Doc.lineAt d p = Some l -> p < Doc.to l + 1)
  /\ headingWhile fuel d active pos to b
     = addAll b (flat_map (unlessActive headingLine active)
                          (scanned d pos to))
  /\ checkboxWhile fuel d active pos to b
     = addAll b (flat_map (unlessActive checkboxLine active)
                          (scanned d pos to))
  /\ headingWhile fuel d active pos to b <> OutOfFuel
  /\ checkboxWhile fuel d active pos to b <> OutOfFuel
  /\ (exists b',
        checkboxWhile fuel d active pos to newBuilder = Done b'
        /\ finish b' = flat_map (unlessActive checkboxLine active)
                                (scanned d pos to))
  /\ headingWhile fuel d active pos to newBuilder
     = match flat_map (unlessActive headingLine active)
                      (scanned d pos to) with
       | [] => Done newBuilder
       | _ :: _ => OrderError
       end
  /\ NoDup (scanned d pos to)
  /\ (forall l, In l (scanned d pos to) <->
                pos <= to /\ In l (Doc.lines d)
                /\ pos <= Doc.to l /\ Doc.from l <= to)
  /\ (forall l,
        unlessActive headingLine active l = []
        \/ exists n cls,
             unlessActive headingLine active l
             = [ mkRange (Doc.from l) (Doc.from l + n) (Replace HiddenMarker);
                 mkRange (Doc.from l) (Doc.from l) (LineClass cls) ])
  /\ (forall l, length (unlessActive checkboxLine active l) <= 1)
  /\ (forall v, headingBuild v <> OutOfFuel /\ checkboxBuild v <> OutOfFuel).
Proof.
  intros Hto Hfuel.
  assert (Hh : forall b0,
             headingWhile fuel d active pos to b0
             = addAll b0 (flat_map (unlessActive headingLine active)
                                   (scanned d pos to)))
    by (intros b0; rewrite headingWhile_lineLoop; now apply lineLoop_scanned).
  assert (Hc : forall b0,
             checkboxWhile fuel d active pos to b0
             = addAll b0 (flat_map (unlessActive checkboxLine active)
                                   (scanned d pos to)))
    by (intros b0; rewrite checkboxWhile_lineLoop; now apply lineLoop_scanned).
  split; [|split; [|split; [|split; [|split; [|split; [|split; [|split;
    [|split; [|split; [|split]]]]]]]]]].
  - intros p l Hl. apply lineAt_found in Hl. lia.
  - apply Hh.
  - apply Hc.
  - rewrite Hh. apply addAll_fuel.
  - rewrite Hc. apply addAll_fuel.
  - rewrite Hc.
    destruct (@addAll_inOrder _ (checkbox_scan_inOrder d active pos to)
                newBuilder) as (b' & E & Hadd); [intros x r []|].
    exists b'. split; [exact E | exact Hadd].
  - rewrite Hh.
    pose proof (heading_addAll [scanned d pos to] active) as H.
    cbn [flat_map] in H. rewrite app_nil_r in H. exact H.
  - apply scanned_NoDup.
  - apply scanned_In.
  - intros l. unfold unlessActive, headingLine.
    destruct (Doc.number l =? active); [now left|].
    destruct (Regex.exec headingRe (Doc.text l)); [right; eauto | now left].
  - intros l. unfold unlessActive, checkboxLine.
    destruct (Doc.number l =? active); [cbn; lia|].
    destruct (Regex.exec checkboxRe (Doc.text l)); [|cbn; lia].
    destruct (Js.indexOf _ (Doc.text l)); cbn; lia.
  - intros v. split.
    + unfold headingBuild.
      destruct (Doc.lineAt _ _); [|discriminate].
      rewrite headingFor_rangeLoop.
      pose proof (@rangeLoop_fuel headingLine (doc (state v))
                    (Doc.number l) (visibleRanges v) newBuilder) as H.
      destruct (rangeLoop _ _ _ _ _); cbn [bind];
        [discriminate | discriminate | discriminate | contradiction].
    + unfold checkboxBuild.
      destruct (Doc.lineAt _ _); [|discriminate].
      rewrite checkboxFor_rangeLoop.
      pose proof (@rangeLoop_fuel checkboxLine (doc (state v))
                    (Doc.number l) (visibleRanges v) newBuilder) as H.
      destruct (rangeLoop _ _ _ _ _); cbn [bind];
        [discriminate | discriminate | discriminate | contradiction].
Qed.

Lemma scan_terminates_witness :
  headingWhile 128 initialDoc 3 0 127 newBuilder = OrderError
  /\ headingWhile 128 initialDoc 1 0 127 newBuilder = Done newBuilder
  /\ (exists b',
        checkboxWhile 128 initialDoc 3 0 127 newBuilder = Done b'
        /\ finish b'
           = [ mkRange 39 42 (Replace (Checkbox (mkCheckbox true 39 42))) ])
  /\ length (scanned initialDoc 0 127) = 8
  /\ NoDup (scanned initialDoc 0 127).
Proof.
  destruct (@scan_terminates initialDoc 3 0 127 128 newBuilder)
    as (_ & _ & _ & _ & _ & Hc & Hh & Hn & _);
    [vm_compute; lia | vm_compute; lia |].
  split; [rewrite Hh; reflexivity|].
  split; [reflexivity|].
  split; [|split; [reflexivity | exact Hn]].
  destruct Hc as (b' & Hb' & Hf). exists b'. split; [exact Hb'|].
  rewrite Hf. reflexivity.
Defined.

(* ################################################################# *)
(** * Further properties *)

(* ================================================================= *)
(** ** More on the lines of a document *)

Section MoreLines.

Import Doc.

Lemma number_unique d l l' :
  In l (lines d) -> In l' (lines d) -> number l = number l' -> l = l'.
Proof.
  intros Hl Hl' Hn. destruct (lines_apart _ _ _ Hl Hl') as [H | [H | H]];
    [exact H | lia | lia].
Qed.

Lemma linesFrom_texts ls start num :
  map text (linesFrom ls start num) = ls.
Proof.
  revert start num. induction ls as [|t rest IH]; intros start num;
    cbn [linesFrom map text]; [reflexivity|]. now rewrite IH.
Qed.

Lemma split_no_newline s t : In t (split s) -> ~ In newline t.
Proof.
  revert t. induction s as [|c s IH]; intros t; cbn [split].
  - intros [<- | []] [].
  - destruct (N.eqb c newline) eqn:Hc.
    + intros [<- | Ht]; [intros [] | now apply IH].
    + apply N.eqb_neq in Hc.
      destruct (split s) as [|l ls] eqn:E; [now apply split_nonempty in E|].
      intros [<- | Ht].
      * intros [H | H]; [congruence|]. apply (IH l); [now left | exact H].
      * apply IH. now right.
Qed.

Lemma line_no_newline d l : In l (lines d) -> ~ In newline (text l).
Proof.
  intros Hl. apply (split_no_newline d).
  unfold lines in Hl. rewrite <- (linesFrom_texts (split d) 0 1).
  now apply in_map.
Qed.

Lemma split_single s : ~ In newline s -> split s = [s].
Proof.
  induction s as [|c s IH]; intros H; cbn [split]; [reflexivity|].
  destruct (N.eqb c newline) eqn:Hc.
  - apply N.eqb_eq in Hc. exfalso. apply H. now left.
  - rewrite IH; [reflexivity|]. intros Hs. apply H. now right.
Qed.

Lemma in_slice (s : str) i j x : In x (Js.slice s i j) -> In x s.
Proof.
  unfold Js.slice. intros H.
  rewrite <- (firstn_skipn i s). apply in_or_app. right.
  rewrite <- (firstn_skipn (j - i) (skipn i s)). apply in_or_app. now left.
Qed.

End MoreLines.

(* ================================================================= *)
(** ** Headings and tasks *)

Section Kinds.

(** No text is a heading and a task at once. *)
Lemma patterns_exclusive text :
  Regex.InLanguage headingRe text -> ~ Regex.InLanguage checkboxRe text.
Proof.
  intros Hh Hc.
  apply exec_language in Hh as [mh Hh]. apply exec_language in Hc as [mc Hc].
  destruct (heading_exec_inv _ Hh)
    as (hashes & sep & content & Ht & Hall & Hlen & _).
  destruct (checkbox_exec_inv _ Hc) as (ws1 & ws2 & c & rest & Ht' & Hw1 & _).
  rewrite Ht in Ht'.
  destruct hashes as [|x hashes]; [cbn in Hlen; lia|].
  cbn [forallb] in Hall. apply andb_true_iff in Hall as [Hx _].
  apply N.eqb_eq in Hx. subst x.
  destruct ws1 as [|y ws1]; cbn [app] in Ht'.
  - discriminate Ht'.
  - injection Ht' as <- _. cbn [forallb] in Hw1.
    apply andb_true_iff in Hw1 as [Hy _]. discriminate Hy.
Qed.

End Kinds.

(** X2. No line is a heading and a task at once: no text matches both
    patterns, so for no line do both loops have a call to make. *)
Theorem heading_or_task (text : str) :
  ~ (Regex.InLanguage headingRe text /\ Regex.InLanguage checkboxRe text)
  /\ forall f t n,
       headingLine (Doc.mkLine f t n text) = []
       \/ checkboxLine (Doc.mkLine f t n text) = [].
Proof.
  split.
  - intros [Hh Hc]. exact (patterns_exclusive Hh Hc).
  - intros f t n.
    destruct (Regex.exec headingRe text) as [m|] eqn:E.
    + right. apply checkboxLine_nomatch. cbn [Doc.text]. intros Hc.
      apply (@patterns_exclusive text); [|exact Hc].
      apply exec_language. eauto.
    + left. unfold headingLine. cbn [Doc.text]. now rewrite E.
Qed.

(** X3. No checkbox covers a line break: each range of the checkbox
    build is well-formed, ends inside the document, and the text it
    replaces lies in one line. *)
Theorem decorations_within_line (v : EditorView) :
  validView v = true ->
  exists cs,
    checkboxBuild v = Done cs
    /\ forall r, In r cs ->
         rfrom r <= rto r
         /\ rto r <= length (doc (state v))
         /\ ~ In Doc.newline (Js.slice (doc (state v)) (rfrom r) (rto r)).
Proof.
  intros Hv. destruct (validView_inv v Hv) as [[a Ha] _].
  eexists.
  split; [exact (@checkboxBuild_decorate v a Hv Ha)|].
  intros r Hr.
  destruct (@decorate_line _ checkboxLine_inside _ _ _ _ Hr)
    as (l & Hl & _ & _ & H1 & H2 & H3).
  pose proof (line_bounds _ _ Hl) as (Hto & Hlen & _).
  split; [exact H2|]. split; [lia|]. intros Hnl.
  apply (line_no_newline _ _ Hl).
  rewrite (line_text _ _ Hl).
  apply (@in_slice _ (rfrom r - Doc.from l) (rto r - Doc.from l)).
  rewrite slice_slice by lia.
  replace (Doc.from l + (rfrom r - Doc.from l)) with (rfrom r) by lia.
  replace (Doc.from l + (rto r - Doc.from l)) with (rto r) by lia.
  exact Hnl.
Qed.

Lemma decorations_within_line_witness :
  validView (initialView 60) = true
  /\ exists cs,
       checkboxBuild (initialView 60) = Done cs
       /\ forall r, In r cs ->
            rfrom r <= rto r
            /\ rto r <= length initialDoc
            /\ ~ In Doc.newline (Js.slice initialDoc (rfrom r) (rto r)).
Proof.
  split; [reflexivity|].
  exact (decorations_within_line (initialView 60) eq_refl).
Defined.

(** X4. A document of one line is never decorated: its only line holds
    the caret, whatever the text and the viewport. *)
Theorem single_line_undecorated (v : EditorView) :
  validView v = true ->
  ~ In Doc.newline (doc (state v)) ->
  headingBuild v = Done [] /\ checkboxBuild v = Done [].
Proof.
  intros Hv Hnl. destruct (validView_inv v Hv) as [[a Ha] _].
  rewrite (@headingBuild_outcome v a Hv Ha),
          (@checkboxBuild_decorate v a Hv Ha).
  assert (Hone : forall l, In l (Doc.lines (doc (state v))) -> l = a).
  { pose proof (lineAt_found _ _ Ha) as [Hain _].
    unfold Doc.lines in *. rewrite (split_single _ Hnl) in *.
    cbn [Doc.linesFrom In] in *.
    intros l [<- | []]. destruct Hain as [<- | []]. reflexivity. }
  assert (Hnone : forall body,
             decorate body (doc (state v)) (Doc.number a) (visibleRanges v)
             = []).
  { intros body.
    destruct (decorate body _ _ _) as [|r rs] eqn:E; [reflexivity|].
    assert (Hr : In r (decorate body (doc (state v)) (Doc.number a)
                                (visibleRanges v)))
      by (rewrite E; now left).
    apply in_decorate in Hr as (l & _ & _ & _ & Hl & _ & _ & Hn & _).
    rewrite (Hone l Hl) in Hn. contradiction. }
  now rewrite !Hnone.
Qed.

Lemma single_line_undecorated_witness :
  headingBuild (mkView (mkState (Js.lit "## Hola") (mkSel 0 0))
                       [mkVisible 0 7] false [])
  = Done []
  /\ checkboxBuild (mkView (mkState (Js.lit "## Hola") (mkSel 0 0))
                           [mkVisible 0 7] false [])
     = Done [].
Proof.
  apply (single_line_undecorated
           (mkView (mkState (Js.lit "## Hola") (mkSel 0 0))
                   [mkVisible 0 7] false [])).
  - reflexivity.
  - vm_compute. intuition discriminate.
Defined.

(* ================================================================= *)
(** ** Viewport and caret *)

Section ViewportCaret.

Variable body : Doc.Line -> list Range.

Hypothesis body_inside :
  forall d l r,
    In l (Doc.lines d) -> In r (body l) ->
    Doc.from l <= rfrom r /\ rfrom r <= rto r /\ rto r <= Doc.to l.

Lemma decorate_wider d active rs rs' :
  (forall r, In r rs -> vfrom r <= vto r ->
             exists r', In r' rs' /\ vfrom r' <= vfrom r /\ vto r <= vto r') ->
  incl (decorate body d active rs) (decorate body d active rs').
Proof.
  intros Hcover x Hx.
  apply in_decorate in Hx as (l & vr & Hvr & E & Hl & H1 & H2 & Hn & Hx).
  destruct (Hcover vr Hvr E) as (vr' & Hvr' & Hf & Ht).
  apply in_decorate. exists l, vr'. repeat split; auto; lia.
Qed.

Lemma decorate_app d active rs1 rs2 :
  decorate body d active (rs1 ++ rs2)
  = decorate body d active rs1 ++ decorate body d active rs2.
Proof. unfold decorate. apply flat_map_app. Qed.

Lemma decorate_other_active d rs a a' r :
  In a' (Doc.lines d) ->
  ~ touches a' r ->
  In r (decorate body d (Doc.number a) rs) ->
  In r (decorate body d (Doc.number a') rs).
Proof.
  intros Ha' Hno Hr.
  apply in_decorate in Hr as (l & vr & Hvr & E & Hl & H1 & H2 & Hn & Hr).
  apply in_decorate. exists l, vr. repeat split; auto.
  intros Heq. apply Hno.
  rewrite <- (number_unique _ _ _ Hl Ha' Heq).
  destruct (body_inside _ _ _ Hl Hr) as (Ha & Hb & Hc).
  pose proof (line_bounds _ _ Hl) as (Hto & _ & _).
  unfold touches. lia.
Qed.

End ViewportCaret.

(** X5. Widening the viewport loses no checkbox: if every visible range
    lies inside a range of the wider viewport, every decoration of the
    checkbox build is among those built for the wider viewport.  The
    heading build, if it throws for the narrower viewport, throws for
    the wider one. *)
Theorem viewport_monotone (v : EditorView) (wider : list VisibleRange) :
  validView v = true ->
  validView (withRanges v wider) = true ->
  (forall r, In r (visibleRanges v) -> vfrom r <= vto r ->
             exists r', In r' wider
                        /\ vfrom r' <= vfrom r /\ vto r <= vto r') ->
  exists cs cs',
    checkboxBuild v = Done cs
    /\ checkboxBuild (withRanges v wider) = Done cs'
    /\ incl cs cs'
    /\ (headingBuild v = OrderError ->
        headingBuild (withRanges v wider) = OrderError).
Proof.
  intros Hv Hw Hcover. destruct (validView_inv v Hv) as [[a Ha] _].
  do 2 eexists.
  split; [exact (@checkboxBuild_decorate v a Hv Ha)|].
  split; [exact (@checkboxBuild_decorate (withRanges v wider) a Hw Ha)|].
  cbn [withRanges state visibleRanges].
  split; [now apply decorate_wider|].
  rewrite (@headingBuild_outcome v a Hv Ha),
          (@headingBuild_outcome (withRanges v wider) a Hw Ha).
  cbn [withRanges state visibleRanges].
  pose proof (@decorate_wider headingLine (doc (state v)) (Doc.number a)
                (visibleRanges v) wider Hcover) as Hincl.
  destruct (decorate headingLine _ _ (visibleRanges v)) as [|r rs];
    [discriminate|].
  intros _. specialize (Hincl r (or_introl eq_refl)).
  destruct (decorate headingLine _ _ wider); [destruct Hincl | reflexivity].
Qed.

Lemma viewport_monotone_witness :
  exists cs cs',
    checkboxBuild (withRanges (initialView 60) [mkVisible 0 20]) = Done cs
    /\ checkboxBuild (withRanges (withRanges (initialView 60)
                                             [mkVisible 0 20])
                                 [mkVisible 0 127]) = Done cs'
    /\ incl cs cs'
    /\ (headingBuild (withRanges (initialView 60) [mkVisible 0 20])
        = OrderError ->
        headingBuild (withRanges (withRanges (initialView 60)
                                             [mkVisible 0 20])
                                 [mkVisible 0 127]) = OrderError).
Proof.
  apply (@viewport_monotone (withRanges (initialView 60) [mkVisible 0 20])
           [mkVisible 0 127]).
  - reflexivity.
  - reflexivity.
  - intros r [<- | []] _. exists (mkVisible 0 127).
    split; [now left|]. cbn. lia.
Defined.

(** X6. The checkbox build goes through the visible ranges one by one
    and appends: the set for a viewport made of two lists of ranges is
    the set for the first followed by the set for the second, so a line
    that two ranges touch gets its checkbox once for each.  The heading
    build returns for such a viewport exactly when it returns for both
    lists. *)
Theorem build_appends (v : EditorView) (rs1 rs2 : list VisibleRange) :
  validView (withRanges v (rs1 ++ rs2)) = true ->
  exists c1 c2,
    checkboxBuild (withRanges v rs1) = Done c1
    /\ checkboxBuild (withRanges v rs2) = Done c2
    /\ checkboxBuild (withRanges v (rs1 ++ rs2)) = Done (c1 ++ c2)
    /\ (headingBuild (withRanges v (rs1 ++ rs2)) = Done []
        <-> headingBuild (withRanges v rs1) = Done []
            /\ headingBuild (withRanges v rs2) = Done []).
Proof.
  intros Hv. destruct (validView_inv _ Hv) as [[a Ha] Hr].
  pose proof (validView_ascending _ Hv) as Hasc.
  cbn [withRanges state visibleRanges] in Ha, Hr, Hasc.
  rewrite forallb_app in Hr. apply andb_true_iff in Hr as [Hr1 Hr2].
  apply ascending_app in Hasc as [Ha1 Ha2].
  assert (Hhead : (head (selection_main (state v))
                   <=? length (doc (state v))) = true).
  { unfold validView in Hv. apply andb_true_iff in Hv as [Hv _].
    now apply andb_true_iff in Hv as [Hh _]. }
  assert (Hv1 : validView (withRanges v rs1) = true)
    by (unfold validView; cbn [withRanges state visibleRanges];
        now rewrite Hhead, Hr1, Ha1).
  assert (Hv2 : validView (withRanges v rs2) = true)
    by (unfold validView; cbn [withRanges state visibleRanges];
        now rewrite Hhead, Hr2, Ha2).
  do 2 eexists.
  split; [exact (@checkboxBuild_decorate _ a Hv1 Ha)|].
  split; [exact (@checkboxBuild_decorate _ a Hv2 Ha)|].
  split.
  - rewrite (@checkboxBuild_decorate _ a Hv Ha).
    cbn [withRanges state visibleRanges]. now rewrite decorate_app.
  - rewrite (@headingBuild_outcome _ a Hv Ha),
            (@headingBuild_outcome _ a Hv1 Ha),
            (@headingBuild_outcome _ a Hv2 Ha).
    cbn [withRanges state visibleRanges]. rewrite decorate_app.
    destruct (decorate headingLine _ _ rs1);
      destruct (decorate headingLine _ _ rs2); cbn [app];
      intuition discriminate.
Qed.

Lemma build_appends_witness :
  checkboxBuild (withRanges (initialView 60) [mkVisible 17 20])
  = Done [mkRange 19 22 (Replace (Checkbox (mkCheckbox false 19 22)))]
  /\ checkboxBuild (withRanges (initialView 60)
                               ([mkVisible 17 20] ++ [mkVisible 30 36]))
     = Done [ mkRange 19 22 (Replace (Checkbox (mkCheckbox false 19 22)));
              mkRange 19 22 (Replace (Checkbox (mkCheckbox false 19 22))) ].
Proof.
  destruct (@build_appends (initialView 60)
              [mkVisible 17 20] [mkVisible 30 36] eq_refl)
    as (c1 & c2 & H1 & H2 & H3 & _).
  split; [reflexivity|].
  rewrite H3. vm_compute in H1, H2.
  injection H1 as <-. injection H2 as <-. reflexivity.
Defined.

(** X7. Moving the caret touches two lines only: a checkbox that meets
    neither the line the caret leaves nor the line it enters is in the
    set before the move exactly when it is in the set after. *)
Theorem caret_move_local (v : EditorView) (h h' : nat) (a a' : Doc.Line) :
  validView (withHead v h) = true ->
  validView (withHead v h') = true ->
  Doc.lineAt (doc (state v)) h = Some a ->
  Doc.lineAt (doc (state v)) h' = Some a' ->
  exists cs cs',
    checkboxBuild (withHead v h) = Done cs
    /\ checkboxBuild (withHead v h') = Done cs'
    /\ forall r, ~ touches a r -> ~ touches a' r ->
                 (In r cs <-> In r cs').
Proof.
  intros Hv Hv' Ha Ha'.
  pose proof (lineAt_found _ _ Ha) as [Hain _].
  pose proof (lineAt_found _ _ Ha') as [Hain' _].
  do 2 eexists.
  split; [exact (@checkboxBuild_decorate (withHead v h) a Hv Ha)|].
  split; [exact (@checkboxBuild_decorate (withHead v h') a' Hv' Ha')|].
  cbn [withHead state doc visibleRanges].
  intros r Hno Hno'. split.
  - exact (@decorate_other_active _ checkboxLine_inside _ _ a a' r Hain' Hno').
  - exact (@decorate_other_active _ checkboxLine_inside _ _ a' a r Hain Hno).
Qed.

Lemma caret_move_local_witness :
  exists cs cs',
    checkboxBuild (withHead (initialView 0) 20) = Done cs
    /\ checkboxBuild (withHead (initialView 0) 60) = Done cs'
    /\ forall r,
         ~ touches (Doc.mkLine 17 36 3 (Js.lit "- [ ] Comprar leche")) r ->
         ~ touches (Doc.mkLine 58 103 6
                      (Js.lit "Texto normal con **negrita** y `inline code`."))
             r ->
         (In r cs <-> In r cs').
Proof.
  exact (@caret_move_local (initialView 0) 20 60
           (Doc.mkLine 17 36 3 (Js.lit "- [ ] Comprar leche"))
           (Doc.mkLine 58 103 6
              (Js.lit "Texto normal con **negrita** y `inline code`."))
           eq_refl eq_refl eq_refl eq_refl).
Defined.

(* ================================================================= *)
(** ** Widgets, updates, lifecycle *)

Lemma splice_differs (n fa ta fb tb : nat) :
  fa <= ta -> ta <= n -> fb <= tb -> tb <= n ->
  firstn fa (repeat (Js.chr "."%char) n) ++ Js.lit "[x]"
    ++ skipn ta (repeat (Js.chr "."%char) n)
  = firstn fb (repeat (Js.chr "."%char) n) ++ Js.lit "[x]"
    ++ skipn tb (repeat (Js.chr "."%char) n) ->
  fa = fb /\ ta = tb.
Proof.
  intros Ha Han Hb Hbn E.
  set (s := repeat (Js.chr "."%char) n) in *.
  assert (Hs : length s = n) by apply repeat_length.
  assert (Hla : length (firstn fa s) = fa) by (rewrite length_firstn; lia).
  assert (Hlb : length (firstn fb s) = fb) by (rewrite length_firstn; lia).
  assert (Hdot : forall k i, i < k -> k <= n ->
                   nth_error (firstn k s) i = Some (Js.chr "."%char)).
  { intros k i Hi Hk. rewrite nth_error_firstn.
    replace (i <? k) with true by (symmetry; apply Nat.ltb_lt; lia).
    unfold s. apply nth_error_repeat. lia. }
  assert (Hbr : forall k t, nth_error (firstn k s ++ Js.lit "[x]" ++ t)
                              (length (firstn k s))
                            = Some (Js.chr "["%char)).
  { intros k t. rewrite nth_error_app2 by lia.
    now rewrite Nat.sub_diag. }
  assert (Hf : fa = fb).
  { destruct (Nat.lt_trichotomy fa fb) as [Hlt | [Heq | Hgt]]; [|exact Heq|].
    - pose proof (Hbr fa (skipn ta s)) as H. rewrite E, Hla in H.
      rewrite nth_error_app1 in H by lia.
      rewrite Hdot in H by lia. discriminate H.
    - pose proof (Hbr fb (skipn tb s)) as H. rewrite <- E, Hlb in H.
      rewrite nth_error_app1 in H by lia.
      rewrite Hdot in H by lia. discriminate H. }
  split; [exact Hf|].
  apply (f_equal (@length _)) in E.
  rewrite !length_app, Hla, Hlb, !length_skipn, Hs in E. lia.
Qed.

(** X8. The equality of checkbox widgets is the right one for reusing a
    rendered control.  Two widgets it equates render the same control,
    and their listeners dispatch the same change on every document.  Two
    widgets with well-formed ranges that it tells apart differ in the
    control they render or, on some document, in what a toggle does. *)
Theorem equal_widgets_interchangeable (a b : CheckboxWidget) :
  (CheckboxWidget_eq a b = true ->
   toDOM a = toDOM b /\ forall e s, onChange a e s = onChange b e s)
  /\ (wfrom a <= wto a -> wfrom b <= wto b ->
      CheckboxWidget_eq a b = false ->
      toDOM a <> toDOM b \/ exists e s, onChange a e s <> onChange b e s).
Proof.
  split.
  { intros H. apply CheckboxWidget_eq_true in H. subst b. auto. }
  intros Ha Hb H.
  destruct a as [ca fa ta], b as [cb fb tb]. cbn [wfrom wto] in Ha, Hb.
  destruct (Bool.eqb ca cb) eqn:Ec.
  - right. apply eqb_prop in Ec. subst cb.
    exists (mkInput true),
           (mkSurface (repeat (Js.chr "."%char) (Nat.max ta tb)) false).
    unfold onChange, applyChange.
    cbn [content wfrom wto cfrom cto insert input_checked].
    rewrite repeat_length.
    replace (fa <=? ta) with true by (symmetry; now apply Nat.leb_le).
    replace (fb <=? tb) with true by (symmetry; now apply Nat.leb_le).
    replace (ta <=? Nat.max ta tb) with true
      by (symmetry; apply Nat.leb_le; lia).
    replace (tb <=? Nat.max ta tb) with true
      by (symmetry; apply Nat.leb_le; lia).
    cbn [andb bind]. intros [= E].
    apply splice_differs in E as [-> ->]; try lia.
    unfold CheckboxWidget_eq in H. cbn [checked wfrom wto] in H.
    rewrite eqb_reflx, !Nat.eqb_refl in H. discriminate H.
  - left. unfold toDOM. cbn [checked]. intros [= E]. subst cb.
    rewrite eqb_reflx in Ec. discriminate Ec.
Qed.

Lemma equal_widgets_interchangeable_witness :
  (toDOM (mkCheckbox true 39 42) = toDOM (mkCheckbox true 39 42)
   /\ forall e s, onChange (mkCheckbox true 39 42) e s
                  = onChange (mkCheckbox true 39 42) e s)
  /\ (toDOM (mkCheckbox true 19 22) <> toDOM (mkCheckbox true 39 42)
      \/ exists e s, onChange (mkCheckbox true 19 22) e s
                     <> onChange (mkCheckbox true 39 42) e s).
Proof.
  split.
  - exact (proj1 (equal_widgets_interchangeable
                    (mkCheckbox true 39 42) (mkCheckbox true 39 42))
                 eq_refl).
  - apply (proj2 (equal_widgets_interchangeable
                    (mkCheckbox true 19 22) (mkCheckbox true 39 42))).
    + cbn. lia.
    + cbn. lia.
    + reflexivity.
Defined.

(** The last view of a longer run. *)
Lemma lastView_cons v u us : lastView v (u :: us) = lastView (view u) us.
Proof.
  assert (Hd : forall (l : list EditorView) y d d',
             last (y :: l) d = last (y :: l) d').
  { induction l as [|z l IH]; intros y d d'; [reflexivity|].
    change (last (z :: l) d = last (z :: l) d'). apply IH. }
  unfold lastView. cbn [map].
  destruct (map view us) as [|y l]; [reflexivity|].
  change (last (y :: l) v = last (y :: l) (view u)). apply Hd.
Qed.

(** X9. The checkbox plugin never shows stale decorations.  Start from
    the plugin as its constructor made it, and let the engine deliver
    valid views in updates that report a change whenever the state or
    the viewport is not the previous one's: after any run of such
    updates the plugin holds what its constructor would make for the
    last view. *)
Theorem run_keeps_current (us : list ViewUpdate) (v : EditorView)
        (pc : Plugin) :
  checkboxNew v = Done pc ->
  faithful v us ->
  exists pc',
    checkboxRun pc us = Done pc'
    /\ checkboxNew (lastView v us) = Done pc'.
Proof.
  revert v pc. induction us as [|u rest IH]; intros v pc Hc Hf.
  - exists pc. cbn. auto.
  - cbn [faithful] in Hf. destruct Hf as (Hv & Hsame & Hrest).
    destruct (validView_inv _ Hv) as [[a Ha] _].
    assert (Hstep : exists pc1,
               checkboxUpdate pc u = Done pc1
               /\ checkboxNew (view u) = Done pc1).
    { unfold checkboxUpdate.
      fold (reportsChange u) in *.
      destruct (reportsChange u) eqn:E.
      - unfold checkboxNew.
        rewrite (@checkboxBuild_decorate _ a Hv Ha).
        cbn [bind]. eexists. split; reflexivity.
      - destruct (Hsame eq_refl) as [Hs Hr].
        exists pc. split; [reflexivity|].
        rewrite <- Hc. unfold checkboxNew, checkboxBuild.
        now rewrite Hs, Hr. }
    destruct Hstep as (pc1 & Hu & Hn).
    destruct (IH (view u) pc1 Hn Hrest) as (pc' & Hr & Hl).
    exists pc'. cbn [checkboxRun].
    rewrite Hu. cbn [bind]. rewrite lastView_cons. auto.
Qed.

Lemma run_keeps_current_witness :
  exists pc',
    checkboxRun
      (mkPlugin
         [ mkRange 19 22 (Replace (Checkbox (mkCheckbox false 19 22)));
           mkRange 39 42 (Replace (Checkbox (mkCheckbox true 39 42))) ])
      [ mkUpdate false false true (initialView 20);
        mkUpdate false false false (initialView 20) ]
    = Done pc'
    /\ checkboxNew (initialView 20) = Done pc'.
Proof.
  apply (@run_keeps_current
           [ mkUpdate false false true (initialView 20);
             mkUpdate false false false (initialView 20) ]
           (initialView 0)).
  - reflexivity.
  - cbn [faithful view reportsChange docChanged viewportChanged selectionSet
         orb].
    split; [reflexivity|]. split; [discriminate|].
    split; [reflexivity|]. split; [|exact I].
    intros _. split; reflexivity.
Defined.

(** X10. Exporting and tearing down compose as a user expects: exporting
    twice is exporting once, the teardown keeps the text exported last,
    and an export after the teardown changes nothing. *)
Theorem export_lifecycle (this : EditorComponent) :
  export (export this) = export this
  /\ exported (ngOnDestroy (export this)) = exported (export this)
  /\ cview (ngOnDestroy this) = None
  /\ export (ngOnDestroy (export this)) = ngOnDestroy (export this).
Proof.
  unfold export, ngOnDestroy. destruct this as [[v|] e]; cbn; auto.
Qed.

(* ================================================================= *)
(** ** The two patterns in closed form *)

Section ClosedForms.

Import Regex.

Lemma forallb_skipn (P : char -> bool) n (s : str) :
  forallb P s = true -> forallb P (skipn n s) = true.
Proof.
  revert n. induction s as [|c s IH]; intros [|n] H; cbn [skipn]; auto.
  cbn [forallb] in H. apply andb_true_iff in H as [_ H]. now apply IH.
Qed.

(** One character, then the rest. *)
Lemma matchAtoms_single k cap rest anchored x tail len caps :
  inClass k x = true ->
  matchAtoms rest anchored tail = Some (len, caps) ->
  matchAtoms (mkAtom k 1 (Some 1) cap :: rest) anchored (x :: tail)
  = Some (1 + len, if cap then [x] :: caps else caps).
Proof.
  intros Hx Hrest.
  apply (@matchAtoms_greedy (mkAtom k 1 (Some 1) cap) rest anchored
           [x] tail len caps); [|cbn; lia|exact Hrest].
  unfold reach. cbn [hi cls app run length]. now rewrite Hx.
Qed.

(** A whole run of spaces, then the rest. *)
Lemma matchAtoms_spaces lo ws rest anchored tail len caps :
  forallb isSpace ws = true ->
  match tail with [] => True | c :: _ => isSpace c = false end ->
  lo <= length ws ->
  matchAtoms rest anchored tail = Some (len, caps) ->
  matchAtoms (mkAtom Space lo None false :: rest) anchored (ws ++ tail)
  = Some (length ws + len, caps).
Proof.
  intros Hws Htail Hlo Hrest.
  apply (@matchAtoms_greedy (mkAtom Space lo None false) rest anchored
           ws tail len caps); [|exact Hlo|exact Hrest].
  unfold reach. cbn [hi cls]. now apply run_app.
Qed.

Lemma checkbox_exec_form ws1 ws2 c rest :
  forallb isSpace ws1 = true ->
  forallb isSpace ws2 = true ->
  In c boxChars ->
  exec checkboxRe (ws1 ++ Js.chr "-"%char :: ws2 ++ token c ++ rest)
  = Some [ws1 ++ Js.chr "-"%char :: ws2 ++ token c; [c]].
Proof.
  intros Hw1 Hw2 Hc.
  assert (Hm : matchAtoms (atoms checkboxRe) (toEnd checkboxRe)
                 (ws1 ++ Js.chr "-"%char :: ws2 ++ token c ++ rest)
               = Some (length ws1 + (1 + (length ws2 + (1 + (1 + (1 + 0))))),
                       [[c]])).
  { cbn [atoms toEnd checkboxRe].
    apply matchAtoms_spaces; [exact Hw1 | reflexivity | cbn; lia |].
    apply (@matchAtoms_single _ false); [reflexivity|].
    apply matchAtoms_spaces; [exact Hw2 | reflexivity | cbn; lia |].
    unfold token. cbn [app].
    apply (@matchAtoms_single _ false); [reflexivity|].
    apply (@matchAtoms_single _ true).
    { destruct Hc as [<- | [<- | [<- | []]]]; reflexivity. }
    apply (@matchAtoms_single _ false); [reflexivity|]. reflexivity. }
  unfold exec. rewrite Hm. f_equal. f_equal.
  replace (ws1 ++ Js.chr "-"%char :: ws2 ++ token c ++ rest)
    with ((ws1 ++ Js.chr "-"%char :: ws2 ++ token c) ++ rest)
    by (rewrite <- !app_assoc; cbn [app]; now rewrite <- !app_assoc).
  replace (length ws1 + (1 + (length ws2 + (1 + (1 + (1 + 0))))))
    with (length (ws1 ++ Js.chr "-"%char :: ws2 ++ token c))
    by (unfold token; rewrite !length_app; cbn [length];
        rewrite !length_app; cbn [length]; lia).
  now rewrite firstn_app, Nat.sub_diag, firstn_all, app_nil_r.
Qed.

End ClosedForms.

(** The checkbox body on a task line. *)
Lemma checkboxLine_on_task (ws1 ws2 rest : str) (c : char)
        (from to num : nat) :
  forallb Regex.isSpace ws1 = true ->
  forallb Regex.isSpace ws2 = true ->
  In c boxChars ->
  let at_ := from + (length ws1 + 1 + length ws2) in
  checkboxLine
    (Doc.mkLine from to num
                (ws1 ++ Js.chr "-"%char :: ws2 ++ token c ++ rest))
  = [ mkRange at_ (at_ + 3)
        (Replace (Checkbox (mkCheckbox (isX c) at_ (at_ + 3)))) ].
Proof.
  intros Hw1 Hw2 Hc at_. unfold checkboxLine. cbn [Doc.text Doc.from].
  rewrite checkbox_exec_form by assumption.
  replace (ws1 ++ Js.chr "-"%char :: ws2 ++ token c ++ rest)
    with ((ws1 ++ Js.chr "-"%char :: ws2)
            ++ Js.chr "["%char :: c :: Js.chr "]"%char :: rest)
    by (unfold token; now rewrite <- app_assoc).
  rewrite indexOf_first.
  - cbn [Regex.group nth]. rewrite lowered_is_x by exact Hc.
    unfold at_. rewrite length_app. cbn [length].
    replace (length ws1 + S (length ws2))
      with (length ws1 + 1 + length ws2) by lia.
    reflexivity.
  - rewrite forallb_app. cbn [forallb].
    rewrite !spaces_no_bracket by assumption. reflexivity.
Qed.

(** X11. What the checkbox body does on a task line, in closed form: for
    a line made of whitespace, a dash, whitespace, a token [[c]] with [c]
    a space, [x] or [X], and anything after it, the body replaces the
    three characters of the token, at the offset of the line plus the
    lengths of what comes before the token, by a checkbox that is
    checked when [c] is [x] or [X]; what follows the token on the line
    plays no part. *)
Theorem checkboxLine_closed_form (ws1 ws2 rest : str) (c : char)
        (from to num : nat) :
  forallb Regex.isSpace ws1 = true ->
  forallb Regex.isSpace ws2 = true ->
  In c boxChars ->
  let at_ := from + (length ws1 + 1 + length ws2) in
  checkboxLine
    (Doc.mkLine from to num
                (ws1 ++ Js.chr "-"%char :: ws2 ++ token c ++ rest))
  = [ mkRange at_ (at_ + 3)
        (Replace (Checkbox (mkCheckbox (isX c) at_ (at_ + 3)))) ]
  /\ forall rest' to' num',
       checkboxLine
         (Doc.mkLine from to' num'
                     (ws1 ++ Js.chr "-"%char :: ws2 ++ token c ++ rest'))
       = checkboxLine
           (Doc.mkLine from to num
                       (ws1 ++ Js.chr "-"%char :: ws2 ++ token c ++ rest)).
Proof.
  intros Hw1 Hw2 Hc at_. split.
  - now apply checkboxLine_on_task.
  - intros rest' to' num'.
    rewrite (checkboxLine_on_task ws1 ws2 rest' from to' num' Hw1 Hw2 Hc).
    rewrite (checkboxLine_on_task ws1 ws2 rest from to num Hw1 Hw2 Hc).
    reflexivity.
Qed.

Lemma checkboxLine_closed_form_witness :
  checkboxLine (Doc.mkLine 10 23 2 (Js.lit "  -  [X] task"))
  = [mkRange 15 18 (Replace (Checkbox (mkCheckbox true 15 18)))].
Proof.
  exact (proj1 (@checkboxLine_closed_form
                  (Js.lit "  ") (Js.lit "  ") (Js.lit " task")
                  (Js.chr "X"%char) 10 23 2 eq_refl eq_refl
                  (or_intror (or_intror (or_introl eq_refl))))).
Defined.

Section HeadingForm.

Import Regex.

(** The greedy run stops at a character outside the class, or at the
    end. *)
Lemma run_stop k (s : str) :
  match skipn (run k s) s with
  | [] => True
  | c :: _ => inClass k c = false
  end.
Proof.
  induction s as [|c s IH]; cbn [run]; [exact I|].
  destruct (inClass k c) eqn:E; [exact IH | exact E].
Qed.

Lemma heading_exec_form hashes sep content :
  forallb (fun c => N.eqb c (Js.chr "#"%char)) hashes = true ->
  1 <= length hashes <= 6 ->
  forallb isSpace sep = true ->
  1 <= length sep ->
  match content with [] => True | c :: _ => isSpace c = false end ->
  forallb (fun c => negb (isLineTerminator c)) content = true ->
  exec headingRe (hashes ++ sep ++ content)
  = Some [hashes ++ sep ++ content; hashes; content].
Proof.
  intros Hh Hlen Hs Hslen Hmax Hc. unfold str, char in *.
  assert (Hm : matchAtoms (atoms headingRe) (toEnd headingRe)
                 (hashes ++ sep ++ content)
               = Some (length hashes + (length sep + (length content + 0)),
                       [hashes; content])).
  { cbn [atoms toEnd headingRe].
    apply (@matchAtoms_greedy
             (mkAtom (Lit (Js.chr "#"%char)) 1 (Some 6) true));
      [|cbn [lo]; unfold str, char in *; lia|].
    { unfold reach. cbn [hi cls].
      fold (markerLength (hashes ++ sep ++ content)).
      rewrite heading_markerLength by assumption.
      unfold str, char in *. lia. }
    apply matchAtoms_spaces; [exact Hs | exact Hmax | exact Hslen |].
    rewrite <- (app_nil_r content) at 1.
    apply (@matchAtoms_greedy (mkAtom Dot 0 None true) [] true content []);
      [|cbn [lo]; lia|reflexivity].
    unfold reach. cbn [hi cls]. now apply run_app. }
  unfold exec. rewrite Hm. f_equal. f_equal.
  apply firstn_all2. rewrite !length_app. lia.
Qed.

End HeadingForm.

(** X12. Which lines are headings, in closed form.  A text matches the
    heading pattern exactly when it starts with one to six ["#"], at
    least one whitespace character follows them, and no line terminator
    comes after that whitespace; the first group is then the run of
    ["#"] and the second what follows the whole whitespace.  So seven
    ["#"], or a marker with no whitespace after it, make no heading. *)
Theorem heading_criterion (text : str) :
  let m := markerLength text in
  let sl := separatorLength text in
  (Regex.InLanguage headingRe text <->
   1 <= m <= 6
   /\ 1 <= sl
   /\ forallb (fun c => negb (Regex.isLineTerminator c))
              (skipn (m + sl) text) = true)
  /\ (Regex.InLanguage headingRe text ->
      Regex.exec headingRe text
      = Some [text; firstn m text; skipn (m + sl) text]).
Proof.
  cbv zeta.
  set (m := markerLength text). set (sl := separatorLength text).
  assert (Hmle : m <= length text)
    by apply (run_le_length (Regex.Lit (Js.chr "#"%char)) text).
  assert (Hsle : sl <= length (skipn m text))
    by apply (run_le_length Regex.Space (skipn m text)).
  assert (Hfwd : 1 <= m <= 6 -> 1 <= sl ->
                 forallb (fun c => negb (Regex.isLineTerminator c))
                         (skipn (m + sl) text) = true ->
                 Regex.exec headingRe text
                 = Some [text; firstn m text; skipn (m + sl) text]).
  { intros Hm Hsl Hdot.
    assert (Ht : text = firstn m text
                        ++ firstn sl (skipn m text) ++ skipn (m + sl) text).
    { rewrite (Nat.add_comm m sl), <- skipn_skipn.
      now rewrite !firstn_skipn. }
    rewrite Ht at 1 2.
    apply heading_exec_form.
    - apply (@run_prefix (Regex.Lit (Js.chr "#"%char))). apply Nat.le_refl.
    - rewrite length_firstn. lia.
    - apply (@run_prefix Regex.Space). apply Nat.le_refl.
    - rewrite length_firstn. lia.
    - rewrite (Nat.add_comm m sl), <- skipn_skipn.
      apply (run_stop Regex.Space (skipn m text)).
    - exact Hdot. }
  assert (Hbwd : Regex.InLanguage headingRe text ->
                 1 <= m <= 6 /\ 1 <= sl
                 /\ forallb (fun c => negb (Regex.isLineTerminator c))
                            (skipn (m + sl) text) = true).
  { intros Hin. apply exec_language in Hin as [mm Hmm].
    destruct (heading_exec_inv _ Hmm)
      as (hashes & sep & content & Ht & Hh & Hlen & Hs & Hslen & Hc & _).
    pose proof (heading_markerLength hashes sep content Hh Hs Hslen) as Hm.
    pose proof (heading_separatorLength hashes sep content Hh Hs Hslen)
      as Hsl.
    unfold str, char in *.
    rewrite <- Ht in Hm, Hsl. change (m = length hashes) in Hm.
    change (length sep <= sl) in Hsl.
    split; [lia|]. split; [lia|].
    rewrite Ht, Hm.
    rewrite skipn_app.
    replace (skipn (length hashes + sl) hashes) with (@nil N)
      by (symmetry; apply skipn_all2; lia).
    cbn [app]. rewrite skipn_app.
    replace (skipn (length hashes + sl - length hashes) sep) with (@nil N)
      by (symmetry; apply skipn_all2; lia).
    cbn [app]. now apply forallb_skipn. }
  split; [split|].
  - exact Hbwd.
  - intros (Hm & Hsl & Hdot). apply exec_language. eauto.
  - intros Hin. destruct (Hbwd Hin) as (Hm & Hsl & Hdot). now apply Hfwd.
Qed.

Lemma heading_criterion_witness :
  ~ Regex.InLanguage headingRe (Js.lit "####### siete")
  /\ ~ Regex.InLanguage headingRe (Js.lit "#tag")
  /\ Regex.exec headingRe (Js.lit "###   tres")
     = Some [Js.lit "###   tres"; Js.lit "###"; Js.lit "tres"].
Proof.
  split; [|split].
  - intros H.
    apply (proj1 (proj1 (heading_criterion (Js.lit "####### siete")))) in H.
    vm_compute in H. lia.
  - intros H.
    apply (proj1 (proj1 (heading_criterion (Js.lit "#tag")))) in H.
    vm_compute in H. lia.
  - apply (proj2 (heading_criterion (Js.lit "###   tres"))).
    apply (proj2 (proj1 (heading_criterion (Js.lit "###   tres")))).
    vm_compute. repeat split; lia.
Defined.

(* ================================================================= *)
(** ** The order of the ranges a scan adds *)

(** X13. The checkbox loop adds its ranges in document order.  On a
    visible range it returns, and of the ranges it has added each ends
    before the next one starts; so they come in the order the builder
    asks for. *)
Theorem scan_in_order (d : Doc.Text) (active pos to : nat) :
  to <= length d ->
  exists b,
    checkboxWhile (S to - pos) d active pos to newBuilder = Done b
    /\ StronglySorted apart (finish b)
    /\ StronglySorted inOrder (finish b).
Proof.
  intros Hto.
  destruct (@addAll_inOrder _ (checkbox_scan_inOrder d active pos to)
              newBuilder) as (b & E & Hadd); [intros x r []|].
  exists b. split.
  { rewrite checkboxWhile_lineLoop.
    rewrite lineLoop_scanned by (exact Hto || apply Nat.le_refl).
    exact E. }
  unfold finish. rewrite Hadd. cbn [newBuilder added app].
  split; [|apply checkbox_scan_inOrder].
  assert (Hlines : forall l, In l (scanned d pos to) -> In l (Doc.lines d))
    by (intros l Hl; now apply scanned_In in Hl).
  eapply sorted_flat_map; [apply scanned_sorted | |].
  - intros l _. unfold unlessActive, checkboxLine.
    destruct (Doc.number l =? active); [constructor|].
    destruct (Regex.exec checkboxRe (Doc.text l)); [|constructor].
    destruct (Js.indexOf _ (Doc.text l)); repeat constructor.
  - intros l l' r r' Hl Hl' [Hlt _] Hr Hr'.
    unfold unlessActive in Hr, Hr'.
    destruct (Doc.number l =? active); [destruct Hr|].
    destruct (Doc.number l' =? active); [destruct Hr'|].
    pose proof (checkboxLine_inside _ _ _ (Hlines _ Hl) Hr).
    pose proof (checkboxLine_inside _ _ _ (Hlines _ Hl') Hr').
    unfold apart. lia.
Qed.

Lemma scan_in_order_witness :
  exists b,
    checkboxWhile (S 127 - 0) initialDoc 6 0 127 newBuilder = Done b
    /\ StronglySorted apart (finish b)
    /\ StronglySorted inOrder (finish b).
Proof.
  apply (@scan_in_order initialDoc 6 0 127). vm_compute. lia.
Defined.

(* ================================================================= *)
(** ** Replacing characters inside a line *)

Section Retext.

Import Doc.

Lemma split_app_newline (t J : str) :
  ~ In newline t -> split (t ++ newline :: J) = t :: split J.
Proof.
  induction t as [|c t IH]; intros Hnl; cbn [app split].
  - now rewrite N.eqb_refl.
  - destruct (N.eqb c newline) eqn:Hc.
    + apply N.eqb_eq in Hc. exfalso. apply Hnl. now left.
    + rewrite IH; [reflexivity|]. intros H. apply Hnl. now right.
Qed.

Lemma split_join (ls : list str) :
  ls <> [] -> (forall t, In t ls -> ~ In newline t) ->
  split (join [newline] ls) = ls.
Proof.
  induction ls as [|t rest IH]; intros Hne Hall; [contradiction|].
  destruct rest as [|t' rest].
  - cbn [join]. apply split_single. apply Hall. now left.
  - change (join [newline] (t :: t' :: rest))
      with (t ++ newline :: join [newline] (t' :: rest)).
    rewrite split_app_newline by (apply Hall; now left).
    rewrite IH; [reflexivity | discriminate|].
    intros x Hx. apply Hall. now right.
Qed.

(** The text before a line of a list of lines, and the text after it. *)
Lemma join_middle (T1 T2 : list str) (t : str) :
  exists pfx sfx,
    length pfx = span T1
    /\ forall t', join [newline] (T1 ++ t' :: T2) = pfx ++ t' ++ sfx.
Proof.
  induction T1 as [|x T1 (pfx & sfx & Hlen & IH)].
  - exists [], (match T2 with [] => [] | _ => newline :: join [newline] T2 end).
    split; [reflexivity|]. intros t'. cbn [app].
    destruct T2; [now rewrite app_nil_r | reflexivity].
  - exists (x ++ newline :: pfx), sfx. split.
    + rewrite length_app. cbn [length span]. lia.
    + intros t'.
      assert (Hj : join [newline] ((x :: T1) ++ t' :: T2)
                   = x ++ newline :: join [newline] (T1 ++ t' :: T2)).
      { cbn [app]. destruct (T1 ++ t' :: T2) eqn:E; [|reflexivity].
        now destruct T1. }
      rewrite Hj, IH, <- app_assoc. reflexivity.
Qed.

Lemma linesFrom_app T1 T2 s n :
  linesFrom (T1 ++ T2) s n
  = linesFrom T1 s n ++ linesFrom T2 (s + span T1) (n + length T1).
Proof.
  revert s n. induction T1 as [|t T1 IH]; intros s n; cbn [app linesFrom].
  - cbn [span length]. now rewrite !Nat.add_0_r.
  - rewrite IH. cbn [span length]. f_equal. f_equal; f_equal; lia.
Qed.

Lemma linesFrom_decompose ls s n A l B :
  linesFrom ls s n = A ++ l :: B ->
  exists T1 T2,
    ls = T1 ++ text l :: T2
    /\ A = linesFrom T1 s n
    /\ from l = s + span T1
    /\ to l = from l + length (text l)
    /\ number l = n + length T1
    /\ B = linesFrom T2 (to l + 1) (S (number l)).
Proof.
  revert ls s n. induction A as [|x A IH]; intros ls s n E;
    (destruct ls as [|t rest]; [discriminate E|]);
    cbn [linesFrom app] in E; injection E as Hx E.
  - subst l. exists [], rest. cbn [text from to number span length app].
    repeat split; try lia. now symmetry.
  - destruct (IH _ _ _ E) as (T1 & T2 & -> & -> & Hf & Ht & Hn & ->).
    exists (t :: T1), T2. cbn [app linesFrom span length].
    subst x. repeat split; try lia.
Qed.

(** Replacing, inside one line, a stretch of text by as many characters
    without a line break changes the text of that line and nothing else
    about the lines. *)
Lemma lines_retext d A l B (pre mid mid' rest : str) :
  lines d = A ++ l :: B ->
  text l = pre ++ mid ++ rest ->
  length mid' = length mid ->
  ~ In newline mid' ->
  lines (firstn (from l + length pre) d ++ mid'
           ++ skipn (from l + length pre + length mid) d)
  = A ++ mkLine (from l) (to l) (number l) (pre ++ mid' ++ rest) :: B.
Proof.
  intros Hd Ht Hlen Hnl. unfold Text, str, char in *.
  destruct (linesFrom_decompose _ _ _ _ _ _ Hd)
    as (T1 & T2 & Hs & HA & Hf & Hto & Hn & HB).
  destruct (join_middle T1 T2 (text l)) as (pfx & sfx & Hp & Hj).
  unfold Text, str, char in *.
  assert (Hdoc : d = (pfx ++ pre) ++ mid ++ (rest ++ sfx)).
  { rewrite <- (join_split d), Hs, Hj, Ht. now rewrite <- !app_assoc. }
  assert (Hat : from l + length pre = length (pfx ++ pre))
    by (rewrite length_app; cbn in Hf; lia).
  assert (Hnew : firstn (from l + length pre) d ++ mid'
                   ++ skipn (from l + length pre + length mid) d
                 = join [newline] (T1 ++ (pre ++ mid' ++ rest) :: T2)).
  { rewrite Hj, Hat. rewrite Hdoc at 1 2. unfold Text, str, char in *.
    rewrite firstn_app, Nat.sub_diag, firstn_all. cbn [firstn].
    rewrite app_nil_r.
    assert (Hskip : skipn (length (pfx ++ pre) + length mid)
                          ((pfx ++ pre) ++ mid ++ rest ++ sfx)
                    = rest ++ sfx).
    { rewrite skipn_app.
      replace (skipn (length (pfx ++ pre) + length mid) (pfx ++ pre))
        with (@nil N) by (symmetry; apply skipn_all2; lia).
      replace (length (pfx ++ pre) + length mid - length (pfx ++ pre))
        with (length mid) by lia.
      cbn [app]. rewrite skipn_app, skipn_all, Nat.sub_diag.
      reflexivity. }
    rewrite Hskip. now rewrite <- !app_assoc. }
  rewrite Hnew. unfold lines. rewrite split_join.
  - rewrite linesFrom_app. cbn [linesFrom]. rewrite <- HA. f_equal.
    assert (Hl' : length (pre ++ mid' ++ rest) = length (text l))
      by (rewrite Ht, !length_app; lia).
    unfold Text, str, char in *. rewrite Hl'. cbn in Hf, Hn.
    replace (0 + span T1) with (from l) by lia.
    replace (1 + length T1) with (number l) by lia.
    rewrite <- Hto. f_equal. rewrite HB. f_equal; lia.
  - now destruct T1.
  - intros t Hin.
    assert (Hold : forall x, In x (T1 ++ text l :: T2) -> ~ In newline x)
      by (intros x Hx; apply (split_no_newline d); now rewrite Hs).
    apply in_app_or in Hin as [Hin | [<- | Hin]].
    + apply Hold, in_or_app. now left.
    + intros Hx.
      assert (Hline : ~ In newline (text l))
        by (apply Hold, in_or_app; right; now left).
      apply in_app_or in Hx as [Hx | Hx].
      * apply Hline. rewrite Ht. apply in_or_app. now left.
      * apply in_app_or in Hx as [Hx | Hx]; [now apply Hnl|].
        apply Hline. rewrite Ht. apply in_or_app. right.
        apply in_or_app. now right.
    + apply Hold, in_or_app. right. now right.
Qed.

End Retext.

Lemma find_retext (P : Doc.Line -> bool) (A B : list Doc.Line)
      (l l' a : Doc.Line) :
  P l' = P l -> a <> l ->
  find P (A ++ l :: B) = Some a -> find P (A ++ l' :: B) = Some a.
Proof.
  intros HP Hne. induction A as [|x A IH]; cbn [app find].
  - rewrite HP. destruct (P l); [congruence | auto].
  - destruct (P x); auto.
Qed.

Section RetextDecorate.

Variable body : Doc.Line -> list Range.
Variable g : Range -> Range.
Variables d d' : Doc.Text.
Variables A B : list Doc.Line.
Variables l l' : Doc.Line.
Variable n : nat.

Hypothesis lines_d : Doc.lines d = A ++ l :: B.
Hypothesis lines_d' : Doc.lines d' = A ++ l' :: B.
Hypothesis same_from : Doc.from l' = Doc.from l.
Hypothesis same_to : Doc.to l' = Doc.to l.
Hypothesis others_fixed :
  forall x, In x (A ++ B) ->
            map g (unlessActive body n x) = unlessActive body n x.
Hypothesis line_mapped :
  map g (unlessActive body n l) = unlessActive body n l'.

Lemma map_flat_map_fixed (L : list Doc.Line) (P : Doc.Line -> bool) :
  (forall x, In x L ->
             map g (unlessActive body n x) = unlessActive body n x) ->
  map g (flat_map (unlessActive body n) (filter P L))
  = flat_map (unlessActive body n) (filter P L).
Proof.
  induction L as [|x L IH]; intros H; cbn [filter]; [reflexivity|].
  assert (IH' := IH (fun y Hy => H y (or_intror Hy))).
  destruct (P x); [|exact IH'].
  cbn [flat_map]. rewrite map_app, IH', H; [reflexivity | now left].
Qed.

Lemma scanned_retext pos to :
  flat_map (unlessActive body n) (scanned d' pos to)
  = map g (flat_map (unlessActive body n) (scanned d pos to)).
Proof.
  unfold scanned. destruct (pos <=? to); [|reflexivity].
  rewrite lines_d, lines_d', !filter_app. cbn [filter].
  rewrite same_from, same_to, !flat_map_app, map_app.
  rewrite map_flat_map_fixed
    by (intros x Hx; apply others_fixed, in_or_app; now left).
  f_equal.
  destruct ((pos <=? Doc.to l) && (Doc.from l <=? to)); cbn [flat_map].
  - rewrite map_app, line_mapped. f_equal. symmetry.
    apply map_flat_map_fixed.
    intros x Hx. apply others_fixed, in_or_app. now right.
  - symmetry. apply map_flat_map_fixed.
    intros x Hx. apply others_fixed, in_or_app. now right.
Qed.

Lemma decorate_retext rs :
  decorate body d' n rs = map g (decorate body d n rs).
Proof.
  unfold decorate. induction rs as [|r rs IH]; [reflexivity|].
  cbn [flat_map]. now rewrite map_app, IH, scanned_retext.
Qed.

Lemma lineAt_retext p a :
  Doc.lineAt d p = Some a -> a <> l -> Doc.lineAt d' p = Some a.
Proof.
  unfold Doc.lineAt. rewrite lines_d, lines_d'. intros Ha Hne.
  apply (@find_retext _ A B l l' a); auto.
Qed.

End RetextDecorate.

Section ToggleRebuild.

Lemma isX_flipped c :
  In c boxChars ->
  In (if isX c then Js.chr " "%char else Js.chr "x"%char) boxChars
  /\ isX (if isX c then Js.chr " "%char else Js.chr "x"%char)
     = negb (isX c).
Proof.
  intros [<- | [<- | [<- | []]]]; cbn; auto.
Qed.

Lemma next_token c :
  (if negb (isX c) then Js.lit "[x]" else Js.lit "[ ]")
  = token (if isX c then Js.chr " "%char else Js.chr "x"%char).
Proof. destruct (isX c); reflexivity. Qed.

(** What a task line is made of, and the one range its body adds. *)
Lemma task_line d l r :
  In l (Doc.lines d) -> In r (checkboxLine l) ->
  exists ws1 ws2 c rest,
    Doc.text l = (ws1 ++ Js.chr "-"%char :: ws2) ++ token c ++ rest
    /\ forallb Regex.isSpace ws1 = true
    /\ forallb Regex.isSpace ws2 = true
    /\ In c boxChars
    /\ r = mkRange (Doc.from l + length (ws1 ++ Js.chr "-"%char :: ws2))
                   (Doc.from l + length (ws1 ++ Js.chr "-"%char :: ws2) + 3)
             (Replace
                (Checkbox
                   (mkCheckbox
                      (isX c)
                      (Doc.from l + length (ws1 ++ Js.chr "-"%char :: ws2))
                      (Doc.from l + length (ws1 ++ Js.chr "-"%char :: ws2)
                       + 3))))
    /\ Doc.from l + length (ws1 ++ Js.chr "-"%char :: ws2) + 3 <= Doc.to l.
Proof.
  intros Hl Hr.
  pose proof (checkboxLine_language _ _ Hr) as Hin.
  apply exec_language in Hin as [m Hm].
  destruct (checkbox_exec_inv _ Hm)
    as (ws1 & ws2 & c & rest & Ht & Hw1 & Hw2 & Hc & _).
  exists ws1, ws2, c, rest.
  split; [rewrite Ht; now rewrite <- app_assoc|].
  split; [exact Hw1|]. split; [exact Hw2|]. split; [exact Hc|].
  destruct l as [f t n txt]. cbn [Doc.text Doc.from Doc.to] in *.
  subst txt.
  rewrite (checkboxLine_on_task ws1 ws2 rest f t n Hw1 Hw2 Hc) in Hr.
  cbv zeta in Hr. destruct Hr as [<- | []].
  replace (length (ws1 ++ Js.chr "-"%char :: ws2))
    with (length ws1 + 1 + length ws2)
    by (rewrite length_app; cbn [length]; lia).
  split; [reflexivity|].
  apply line_bounds in Hl as (Hto & _ & _).
  cbn [Doc.text Doc.from Doc.to] in Hto. rewrite Hto.
  unfold token. rewrite !length_app. cbn [length].
  rewrite !length_app. cbn [length]. lia.
Qed.

End ToggleRebuild.

Lemma map_fixed (A : Type) (g : A -> A) (xs : list A) :
  (forall x, In x xs -> g x = x) -> map g xs = xs.
Proof.
  intros H. rewrite <- (map_id xs) at 2. now apply map_ext_in.
Qed.

Lemma not_heading_if_task text :
  Regex.InLanguage checkboxRe text ->
  forall f t n, headingLine (Doc.mkLine f t n text) = [].
Proof.
  intros Hc f t n. apply headingLine_nomatch. cbn [Doc.text].
  intros Hh. exact (patterns_exclusive Hh Hc).
Qed.

(** X14. A toggle and the rebuild that follows it.  Take a checkbox of
    the set built for a valid view and toggle its control.  In the new
    document every line keeps its extent and its number; the view with
    the new document, the selection and the viewport being as before, is
    valid; the heading build ends as it did before; and the checkbox
    build gives the set it gave before with the toggled checkbox flipped
    and no other change. *)
Theorem toggle_then_rebuild (v : EditorView) :
  validView v = true ->
  exists cs,
    checkboxBuild v = Done cs
    /\ forall r w foc,
         In r cs -> value r = Replace (Checkbox w) ->
         exists d',
           toggle w (mkSurface (doc (state v)) foc)
           = Done (mkSurface d' true)
           /\ map (fun l => (Doc.from l, Doc.to l, Doc.number l))
                  (Doc.lines d')
              = map (fun l => (Doc.from l, Doc.to l, Doc.number l))
                    (Doc.lines (doc (state v)))
           /\ validView (withDoc v d') = true
           /\ headingBuild (withDoc v d') = headingBuild v
           /\ checkboxBuild (withDoc v d')
              = Done (map (flipAt (wfrom w)) cs).
Proof.
  intros Hv. destruct (validView_inv v Hv) as [[a Ha] _].
  eexists.
  split; [exact (@checkboxBuild_decorate v a Hv Ha)|].
  intros r w foc Hr Hw.
  set (d := doc (state v)) in *.
  destruct (@decorate_line _ checkboxLine_inside _ _ _ _ Hr)
    as (l & Hl & Hn & Hrl & _).
  destruct (task_line _ _ _ Hl Hrl)
    as (ws1 & ws2 & c & rest & Ht & Hw1 & Hw2 & Hc & Hreq & Hfit).
  set (pre := ws1 ++ Js.chr "-"%char :: ws2) in *.
  set (f := Doc.from l + length pre) in *.
  rewrite Hreq in Hw. cbn [value] in Hw. injection Hw as <-.
  cbn [wfrom].
  set (c' := if isX c then Js.chr " "%char else Js.chr "x"%char).
  destruct (isX_flipped Hc) as [Hc' Hx']. fold c' in Hc', Hx'.
  pose proof (line_bounds _ _ Hl) as (Hto & Hlen & _).
  destruct (in_split _ _ Hl) as (A & B & Hlines).
  (* the new document *)
  destruct (@applyChange_same_length d f (f + 3) (token c'))
    as (d' & Happly & Hd' & Hlen' & _); [lia | lia | cbn; lia |].
  exists d'.
  assert (Hlines' : Doc.lines d'
                    = A ++ Doc.mkLine (Doc.from l) (Doc.to l) (Doc.number l)
                                      (pre ++ token c' ++ rest) :: B).
  { rewrite Hd'. unfold f.
    apply (@lines_retext d A l B pre (token c) (token c') rest);
      [exact Hlines | exact Ht | reflexivity |].
    unfold c'. destruct (isX c); cbn; intuition discriminate. }
  set (l' := Doc.mkLine (Doc.from l) (Doc.to l) (Doc.number l)
                        (pre ++ token c' ++ rest)) in *.
  assert (Hal : a <> l) by (intros ->; now apply Hn).
  assert (Ha' : Doc.lineAt d' (head (selection_main (state v))) = Some a)
    by (apply (@lineAt_retext d d' A B l l' Hlines Hlines' eq_refl _ a Ha Hal)).
  assert (Hv' : validView (withDoc v d') = true).
  { unfold validView in *. cbn [withDoc state doc selection_main visibleRanges].
    now rewrite Hlen'. }
  assert (Htask' : Regex.InLanguage checkboxRe (pre ++ token c' ++ rest)).
  { apply exec_language. eexists. unfold pre. rewrite <- app_assoc.
    cbn [app]. now apply checkbox_exec_form. }
  assert (Htask : Regex.InLanguage checkboxRe (Doc.text l))
    by (eapply checkboxLine_language; eauto).
  assert (Hnodup : ~ In l (A ++ B)).
  { pose proof (linesFrom_NoDup (Doc.split d) 0 1) as Hnd.
    fold (Doc.lines d) in Hnd. rewrite Hlines in Hnd.
    now apply NoDup_remove_2 in Hnd. }
  assert (Hother : forall x, In x (A ++ B) -> In x (Doc.lines d) /\ x <> l).
  { intros x Hx. split.
    - rewrite Hlines. apply in_app_or in Hx as [Hx | Hx];
        apply in_or_app; [now left | right; now right].
    - intros ->. now apply Hnodup. }
  split; [|split; [|split; [exact Hv'|split]]].
  - unfold toggle, onChange, click, toDOM.
    cbn [input_checked checked wfrom wto content].
    rewrite next_token. fold c'. now rewrite Happly.
  - rewrite Hlines, Hlines', !map_app. reflexivity.
  - rewrite (@headingBuild_outcome _ a Hv' Ha'),
            (@headingBuild_outcome _ a Hv Ha).
    cbn [withDoc state doc visibleRanges]. fold d.
    replace (decorate headingLine d' (Doc.number a) (visibleRanges v))
      with (decorate headingLine d (Doc.number a) (visibleRanges v));
      [reflexivity|]. symmetry.
    rewrite (@decorate_retext headingLine (fun r => r) d d' A B l l'
               (Doc.number a) Hlines Hlines' eq_refl eq_refl).
    + apply map_id.
    + intros x _. apply map_id.
    + rewrite map_id. unfold unlessActive. cbn [Doc.number l'].
      destruct (Doc.number l =? Doc.number a); [reflexivity|].
      unfold l'. rewrite (not_heading_if_task Htask').
      destruct l as [lf lt ln ltxt]. cbn [Doc.text] in Htask.
      now rewrite (not_heading_if_task Htask).
  - rewrite (@checkboxBuild_decorate _ a Hv' Ha').
    cbn [withDoc state doc visibleRanges]. f_equal.
    apply (@decorate_retext checkboxLine (flipAt f) d d' A B l l'
             (Doc.number a) Hlines Hlines' eq_refl eq_refl).
    + intros x Hx. destruct (Hother x Hx) as [Hxl Hne].
      apply map_fixed. intros r' Hr'. unfold unlessActive in Hr'.
      destruct (Doc.number x =? Doc.number a); [destruct Hr'|].
      destruct (checkboxLine_token _ _ _ Hxl Hr')
        as (i & cx & _ & -> & _ & _).
      pose proof (checkboxLine_inside _ _ _ Hxl Hr') as (H1 & H2 & H3).
      cbn [rfrom rto] in H1, H2, H3.
      unfold flipAt. cbn [value wfrom].
      destruct (Nat.eqb_spec (Doc.from x + i) f) as [E | E]; [|reflexivity].
      exfalso.
      destruct (lines_apart _ _ _ Hxl Hl) as [-> | [H | H]];
        [now apply Hne | lia | lia].
    + unfold unlessActive. cbn [Doc.number l'].
      apply Nat.eqb_neq in Hn. rewrite Hn.
      destruct (checkboxLine l) as [|r0 [|r1 rs]] eqn:E;
        [destruct Hrl | | ].
      * destruct Hrl as [-> | []]. rewrite Hreq. cbn [map].
        unfold flipAt. cbn [value wfrom rfrom rto checked wto].
        rewrite Nat.eqb_refl. unfold l', pre.
        rewrite <- app_assoc. cbn [app].
        rewrite (checkboxLine_on_task ws1 ws2 rest
                   (Doc.from l) (Doc.to l) (Doc.number l) Hw1 Hw2 Hc').
        cbv zeta. rewrite Hx'. unfold f, pre.
        rewrite length_app. cbn [length].
        replace (length ws1 + S (length ws2))
          with (length ws1 + 1 + length ws2) by lia.
        reflexivity.
      * exfalso.
        assert (H2 : length (checkboxLine l) <= 1).
        { unfold checkboxLine.
          destruct (Regex.exec checkboxRe (Doc.text l)); [|cbn; lia].
          destruct (Js.indexOf _ (Doc.text l)); cbn; lia. }
        rewrite E in H2. cbn in H2. lia.
Qed.

Lemma toggle_then_rebuild_witness :
  exists d',
    toggle (mkCheckbox false 19 22) (mkSurface initialDoc false)
    = Done (mkSurface d' true)
    /\ validView (withDoc (initialView 0) d') = true
    /\ headingBuild (withDoc (initialView 0) d') = Done []
    /\ checkboxBuild (withDoc (initialView 0) d')
       = Done [ mkRange 19 22 (Replace (Checkbox (mkCheckbox true 19 22)));
                mkRange 39 42 (Replace (Checkbox (mkCheckbox true 39 42))) ].
Proof.
  destruct (toggle_then_rebuild (initialView 0) eq_refl)
    as (cs & Hc & H).
  vm_compute in Hc. injection Hc as <-.
  destruct (H (mkRange 19 22 (Replace (Checkbox (mkCheckbox false 19 22))))
              (mkCheckbox false 19 22) false (or_introl eq_refl) eq_refl)
    as (d' & Ht & _ & Hv & Hh' & Hc').
  exists d'. split; [exact Ht|]. split; [exact Hv|].
  split; [rewrite Hh'; reflexivity | exact Hc'].
Defined.

Lemma splice_self (d : str) f (mid : str) :
  Js.slice d f (f + length mid) = mid ->
  f + length mid <= length d ->
  firstn f d ++ mid ++ skipn (f + length mid) d = d.
Proof.
  unfold Js.slice. intros Hs Hlen.
  replace (f + length mid - f) with (length mid) in Hs by lia.
  rewrite <- Hs at 1.
  rewrite (Nat.add_comm f), <- skipn_skipn, firstn_skipn.
  apply firstn_skipn.
Qed.

Lemma splice_again (d : str) f (m1 m2 : str) :
  f + length m1 <= length d ->
  firstn f (firstn f d ++ m1 ++ skipn (f + length m1) d) ++ m2
    ++ skipn (f + length m1)
             (firstn f d ++ m1 ++ skipn (f + length m1) d)
  = firstn f d ++ m2 ++ skipn (f + length m1) d.
Proof.
  intros Hlen.
  assert (Hf : length (firstn f d) = f) by (rewrite length_firstn; lia).
  f_equal; [|f_equal].
  - rewrite <- Hf at 1. now rewrite firstn_app, Nat.sub_diag, firstn_all,
      app_nil_r.
  - rewrite app_assoc.
    replace (f + length m1) with (length (firstn f d ++ m1)) at 1
      by (rewrite length_app; lia).
    now rewrite skipn_app, Nat.sub_diag, skipn_all.
Qed.

Lemma slice_spliced (d : str) f (mid tail : str) :
  f <= length d ->
  Js.slice (firstn f d ++ mid ++ tail) f (f + length mid) = mid.
Proof.
  intros Hf.
  assert (H : length (firstn f d) = f) by (rewrite length_firstn; lia).
  pose proof (slice_middle (firstn f d) mid tail) as Hs.
  now rewrite H in Hs.
Qed.

Lemma nth_error_tokens (pre tail : list N) (c1 c2 : N) j :
  j <> length pre + 1 ->
  nth_error (pre ++ token c1 ++ tail) j
  = nth_error (pre ++ token c2 ++ tail) j.
Proof.
  intros Hj. destruct (Nat.lt_ge_cases j (length pre)) as [Hlt | Hge].
  - now rewrite !nth_error_app1 by exact Hlt.
  - rewrite (nth_error_app2 pre (token c1 ++ tail)) by exact Hge.
    rewrite (nth_error_app2 pre (token c2 ++ tail)) by exact Hge.
    destruct (j - length pre) as [|[|k]] eqn:E;
      [reflexivity | lia | reflexivity].
Qed.

(** X15. Toggling twice.  Toggle a checkbox of the set built for a valid
    view, then toggle the checkbox that stands in its place after the
    rebuild (the same range, the flag flipped).  The token reads [[ ]]
    again if it was [[ ]], and [[x]] if it was [[x]] or [[X]]: the
    document is the one before the two toggles, except that a capital
    [X] has become [x]; no character other than the one between the
    brackets ever differs. *)
Theorem toggle_twice (v : EditorView) :
  validView v = true ->
  exists cs,
    checkboxBuild v = Done cs
    /\ forall r w foc,
         In r cs -> value r = Replace (Checkbox w) ->
         exists c d' d'',
           In c boxChars
           /\ Js.slice (doc (state v)) (wfrom w) (wto w) = token c
           /\ toggle w (mkSurface (doc (state v)) foc)
              = Done (mkSurface d' true)
           /\ toggle (mkCheckbox (negb (checked w)) (wfrom w) (wto w))
                     (mkSurface d' true)
              = Done (mkSurface d'' true)
           /\ Js.slice d'' (wfrom w) (wto w)
              = token (if isX c then Js.chr "x"%char else Js.chr " "%char)
           /\ (c <> Js.chr "X"%char -> d'' = doc (state v))
           /\ forall i, i <> wfrom w + 1 ->
                        nth_error d'' i = nth_error (doc (state v)) i.
Proof.
  intros Hv. destruct (validView_inv v Hv) as [[a Ha] _].
  eexists. split; [exact (@checkboxBuild_decorate v a Hv Ha)|].
  intros r w foc Hr Hw.
  set (d := doc (state v)) in *.
  destruct (@decorate_line _ checkboxLine_inside _ _ _ _ Hr)
    as (l & Hl & _ & Hrl & _).
  destruct (checkboxLine_token _ _ _ Hl Hrl) as (i & c & Hc & -> & Hs & Hlen).
  cbn [value] in Hw. injection Hw as <-. cbn [checked wfrom wto].
  set (f := Doc.from l + i) in *.
  set (c1 := if isX c then Js.chr " "%char else Js.chr "x"%char).
  set (c2 := if isX c then Js.chr "x"%char else Js.chr " "%char).
  assert (Hself : firstn f d ++ token c ++ skipn (f + 3) d = d)
    by (apply (@splice_self d f (token c)); [exact Hs | exact Hlen]).
  assert (H1 : applyChange d (mkChange f (f + 3) (token c1))
               = Done (firstn f d ++ token c1 ++ skipn (f + 3) d)).
  { unfold applyChange. cbn [cfrom cto insert].
    replace (f <=? f + 3) with true by (symmetry; apply Nat.leb_le; lia).
    now replace (f + 3 <=? length d) with true
      by (symmetry; apply Nat.leb_le; lia). }
  assert (Hlen1 : length (firstn f d ++ token c1 ++ skipn (f + 3) d)
                  = length d).
  { rewrite !length_app, length_firstn, length_skipn. cbn [length token].
    lia. }
  assert (H2 : applyChange (firstn f d ++ token c1 ++ skipn (f + 3) d)
                           (mkChange f (f + 3) (token c2))
               = Done (firstn f d ++ token c2 ++ skipn (f + 3) d)).
  { unfold applyChange. cbn [cfrom cto insert]. rewrite Hlen1.
    replace (f <=? f + 3) with true by (symmetry; apply Nat.leb_le; lia).
    replace (f + 3 <=? length d) with true
      by (symmetry; apply Nat.leb_le; lia).
    cbn [andb]. f_equal.
    apply (@splice_again d f (token c1) (token c2)). exact Hlen. }
  exists c, (firstn f d ++ token c1 ++ skipn (f + 3) d),
         (firstn f d ++ token c2 ++ skipn (f + 3) d).
  split; [exact Hc|]. split; [exact Hs|].
  split; [|split; [|split; [|split]]].
  - unfold toggle, onChange, click, toDOM.
    cbn [input_checked checked wfrom wto content].
    rewrite next_token. fold c1. now rewrite H1.
  - unfold toggle, onChange, click, toDOM.
    cbn [input_checked checked wfrom wto content].
    rewrite negb_involutive.
    replace (if isX c then Js.lit "[x]" else Js.lit "[ ]") with (token c2)
      by (unfold c2; now destruct (isX c)).
    now rewrite H2.
  - apply (@slice_spliced d f (token c2)). lia.
  - intros Hne.
    assert (Hcc : c2 = c).
    { unfold c2. destruct Hc as [<- | [<- | [<- | []]]];
        [reflexivity | reflexivity | now contradiction Hne]. }
    rewrite Hcc. exact Hself.
  - intros j Hj.
    assert (Hd : nth_error d j
                 = nth_error (firstn f d ++ token c ++ skipn (f + 3) d) j)
      by (now rewrite Hself).
    rewrite Hd.
    apply nth_error_tokens. rewrite length_firstn. lia.
Qed.

Lemma toggle_twice_witness :
  exists d' d'',
    toggle (mkCheckbox true 2 5) (mkSurface tasksDoc false)
    = Done (mkSurface d' true)
    /\ toggle (mkCheckbox false 2 5) (mkSurface d' true)
       = Done (mkSurface d'' true)
    /\ Js.slice tasksDoc 2 5 = Js.lit "[X]"
    /\ Js.slice d'' 2 5 = Js.lit "[x]"
    /\ forall i, i <> 3 -> nth_error d'' i = nth_error tasksDoc i.
Proof.
  destruct (toggle_twice tasksView eq_refl) as (cs & Hc & H).
  vm_compute in Hc. injection Hc as <-.
  destruct (H (mkRange 2 5 (Replace (Checkbox (mkCheckbox true 2 5))))
              (mkCheckbox true 2 5) false (or_introl eq_refl) eq_refl)
    as (c & d' & d'' & _ & Hs & H1 & H2 & Hs'' & _ & Hnth).
  vm_compute in Hs. injection Hs as <-.
  exists d', d''. split; [exact H1|]. split; [exact H2|].
  split; [reflexivity|]. split; [exact Hs'' | exact Hnth].
Defined.

(* ================================================================= *)
(** ** When a build throws *)

Section Throws.

Variable body : Doc.Line -> list Range.

Lemma lineAt_outside d p : length d < p -> Doc.lineAt d p = None.
Proof.
  intros Hp. unfold Doc.lineAt.
  destruct (find _ (Doc.lines d)) as [l|] eqn:E; [|reflexivity].
  apply find_some in E as [Hl E]. apply Nat.leb_le in E.
  apply line_bounds in Hl. lia.
Qed.

Lemma addAll_cases b rs :
  (exists b', addAll b rs = Done b') \/ addAll b rs = OrderError.
Proof.
  revert b. induction rs as [|r rs IH]; intros b; cbn [addAll];
    [left; eauto|].
  unfold add. destruct (addLayers _ _); cbn [bind]; [apply IH | now right].
Qed.

(** A range that reaches past the end of the document makes the scan
    walk off it, once it has gone through the lines up to the end. *)
Lemma lineLoop_cut fuel d active pos to b :
  pos <= to -> length d < to -> S to - pos <= fuel ->
  lineLoop body fuel d active pos to b
  = (b' <- lineLoop body fuel d active pos (length d) b ;; RangeError).
Proof.
  revert pos b. induction fuel as [|fuel IH]; intros pos b Hpos Hto Hf;
    [lia|].
  cbn [lineLoop].
  replace (pos <=? to) with true by (symmetry; now apply Nat.leb_le).
  destruct (Doc.lineAt d pos) as [l|] eqn:E.
  - apply lineAt_found in E as [Hl Hp].
    pose proof (line_bounds _ _ Hl) as (_ & Hlen & _).
    replace (pos <=? length d) with true
      by (symmetry; apply Nat.leb_le; lia).
    destruct (Doc.number l =? active); [apply IH; lia|].
    destruct (addAll b (body l)); cbn [bind]; try reflexivity.
    apply IH; lia.
  - destruct (pos <=? length d); reflexivity.
Qed.

Lemma lineLoop_off fuel d active pos to b :
  pos <= to -> length d < to -> S to - pos <= fuel ->
  lineLoop body fuel d active pos to b
  = (b' <- addAll b (flat_map (unlessActive body active)
                              (scanned d pos to)) ;;
     RangeError).
Proof.
  intros Hpos Hto Hf. rewrite lineLoop_cut by assumption.
  rewrite lineLoop_scanned by lia.
  do 2 f_equal. unfold scanned.
  replace (pos <=? to) with true by (symmetry; now apply Nat.leb_le).
  destruct (pos <=? length d) eqn:E.
  - f_equal. apply filter_ext_in. intros l Hl.
    apply line_bounds in Hl as (Hb & Hlen & _).
    replace (Doc.from l <=? length d) with true
      by (symmetry; apply Nat.leb_le; lia).
    now replace (Doc.from l <=? to) with true
      by (symmetry; apply Nat.leb_le; lia).
  - apply Nat.leb_gt in E. rewrite filter_none; [reflexivity|].
    intros l Hl. apply line_bounds in Hl as (_ & Hlen & _).
    replace (pos <=? Doc.to l) with false
      by (symmetry; apply Nat.leb_gt; lia).
    reflexivity.
Qed.

Lemma forallb_false_split (A : Type) (f : A -> bool) xs :
  forallb f xs = false ->
  exists good bad rest,
    xs = good ++ bad :: rest /\ forallb f good = true /\ f bad = false.
Proof.
  induction xs as [|x xs IH]; cbn [forallb]; [discriminate|].
  destruct (f x) eqn:E; cbn [andb]; intros H.
  - destruct (IH H) as (good & bad & rest & -> & Hg & Hb).
    exists (x :: good), bad, rest. cbn [forallb app]. now rewrite E.
  - exists [], x, xs. auto.
Qed.

(** The build goes through the ranges before the first one that reaches
    past the document, and through the lines of that one, then walks
    off. *)
Lemma rangeLoop_outside d active good bad rest b :
  forallb (fun r => vto r <=? length d) good = true ->
  vfrom bad <= vto bad -> length d < vto bad ->
  rangeLoop body d active (good ++ bad :: rest) b
  = (b' <- addAll b (decorate body d active (good ++ [bad])) ;; RangeError).
Proof.
  revert b. induction good as [|r good IH]; intros b Hg Hle Hlt;
    cbn [app rangeLoop].
  - rewrite lineLoop_off by (assumption || lia).
    unfold decorate. cbn [flat_map]. rewrite app_nil_r.
    destruct (addAll b _); reflexivity.
  - cbn [forallb] in Hg. apply andb_true_iff in Hg as [Hr Hg].
    apply Nat.leb_le in Hr.
    rewrite lineLoop_scanned by (exact Hr || lia).
    unfold decorate. cbn [flat_map]. rewrite addAll_app.
    destruct (addAll b _) as [b'| | |]; cbn [bind]; try reflexivity.
    now apply IH.
Qed.

End Throws.

(** X16. When a build throws, on a view whose visible ranges ascend.
    The checkbox build returns a decoration set if the caret and the
    visible ranges are in the document, and throws the document's range
    error if not.  The heading build throws the range error if the caret
    is outside the document; otherwise it returns the empty set or
    throws the builder's error if the ranges are in the document, and
    throws one of the two errors if they are not. *)
Theorem build_throws_iff (v : EditorView) :
  ascending (visibleRanges v) = true ->
  (validView v = true ->
   exists a,
     Doc.lineAt (doc (state v)) (head (selection_main (state v))) = Some a
     /\ checkboxBuild v
        = Done (decorate checkboxLine (doc (state v)) (Doc.number a)
                         (visibleRanges v))
     /\ (headingBuild v = Done [] \/ headingBuild v = OrderError))
  /\ (validView v = false ->
      checkboxBuild v = RangeError
      /\ (headingBuild v = RangeError \/ headingBuild v = OrderError))
  /\ (length (doc (state v)) < head (selection_main (state v)) ->
      headingBuild v = RangeError).
Proof.
  intros Hasc. split; [|split].
  - intros Hv. destruct (validView_inv v Hv) as [[a Ha] _].
    exists a. split; [exact Ha|].
    split; [exact (@checkboxBuild_decorate v a Hv Ha)|].
    exact (headingBuild_cases v Hv).
  - unfold validView. rewrite Hasc, andb_true_r. intros H.
    unfold headingBuild, checkboxBuild.
    destruct (head (selection_main (state v)) <=? length (doc (state v)))
      eqn:Hh.
    + cbn [andb] in H. apply Nat.leb_le in Hh.
      destruct (@lineAt_total _ _ Hh) as [a Ha].
      rewrite Ha, headingFor_rangeLoop, checkboxFor_rangeLoop.
      destruct (forallb_false_split _ _ H)
        as (good & bad & rest & E & Hg & Hb).
      apply Nat.leb_gt in Hb.
      assert (Hasc' : ascending (good ++ [bad]) = true).
      { rewrite E in Hasc.
        replace (good ++ bad :: rest) with ((good ++ [bad]) ++ rest) in Hasc
          by (now rewrite <- app_assoc).
        now apply ascending_app in Hasc as [Hasc _]. }
      assert (Hle : vfrom bad <= vto bad).
      { apply ascending_app in Hasc' as [_ Hbad]. cbn [ascending] in Hbad.
        rewrite !andb_true_r in Hbad. now apply Nat.leb_le. }
      rewrite E, !rangeLoop_outside by assumption.
      split.
      * destruct (@addAll_inOrder _
                    (checkbox_decorate_inOrder (doc (state v))
                       (Doc.number a) _ Hasc') newBuilder)
          as (b' & -> & _); [intros x r []|]. reflexivity.
      * destruct (addAll_cases newBuilder
                    (decorate headingLine (doc (state v)) (Doc.number a)
                              (good ++ [bad]))) as [[b' ->] | ->]; auto.
    + apply Nat.leb_gt in Hh. rewrite lineAt_outside by exact Hh. auto.
  - intros Hh. unfold headingBuild. now rewrite lineAt_outside by exact Hh.
Qed.

Lemma build_throws_iff_witness :
  (exists a,
     Doc.lineAt initialDoc 20 = Some a
     /\ checkboxBuild (initialView 20)
        = Done (decorate checkboxLine initialDoc (Doc.number a)
                         [mkVisible 0 127])
     /\ (headingBuild (initialView 20) = Done []
         \/ headingBuild (initialView 20) = OrderError))
  /\ checkboxBuild (withRanges (initialView 20) [mkVisible 0 128])
     = RangeError
  /\ headingBuild (initialView 128) = RangeError.
Proof.
  split; [|split].
  - exact (proj1 (build_throws_iff (initialView 20) eq_refl) eq_refl).
  - exact (proj1 (proj1 (proj2 (build_throws_iff
                                  (withRanges (initialView 20)
                                              [mkVisible 0 128])
                                  eq_refl))
                        eq_refl)).
  - apply (proj2 (proj2 (build_throws_iff (initialView 128) eq_refl))).
    vm_compute. lia.
Defined.

(** X17. When the heading build throws.  On a valid view the heading
    build throws the builder's error exactly when some visible line
    other than the active one is a heading, and returns the empty set
    exactly when none is; so the set it returns never holds a
    decoration, and putting the caret on the only visible heading is
    what lets the build return. *)
Theorem heading_throws_iff (v : EditorView) (a : Doc.Line) :
  validView v = true ->
  Doc.lineAt (doc (state v)) (head (selection_main (state v))) = Some a ->
  (headingBuild v = OrderError
   <-> exists l, visibleInactive v a l
                 /\ Regex.InLanguage headingRe (Doc.text l))
  /\ (headingBuild v = Done []
      <-> forall l, visibleInactive v a l ->
                    ~ Regex.InLanguage headingRe (Doc.text l)).
Proof.
  intros Hv Ha. split; split.
  - rewrite (@headingBuild_outcome v a Hv Ha).
    destruct (decorate headingLine _ _ _) as [|r rs] eqn:E; [discriminate|].
    intros _.
    assert (Hr : In r (decorate headingLine (doc (state v)) (Doc.number a)
                                (visibleRanges v)))
      by (rewrite E; now left).
    apply in_decorate in Hr as (l & vr & Hvr & Hle & Hl & H1 & H2 & Hn & Hr).
    exists l. split; [|exact (headingLine_language _ _ Hr)].
    split; [exact Hl|]. split; [exact Hn|]. exists vr. auto.
  - intros (l & Hvis & Hm). exact (@headingBuild_throws v a l Hv Ha Hvis Hm).
  - intros H l Hvis Hm.
    rewrite (@headingBuild_throws v a l Hv Ha Hvis Hm) in H. discriminate H.
  - exact (@headingBuild_returns v a Hv Ha).
Qed.

Lemma heading_throws_iff_witness :
  (headingBuild (initialView 20) = OrderError
   <-> exists l,
         visibleInactive (initialView 20)
           (Doc.mkLine 17 36 3 (Js.lit "- [ ] Comprar leche")) l
         /\ Regex.InLanguage headingRe (Doc.text l))
  /\ (headingBuild (initialView 4) = Done []
      <-> forall l,
            visibleInactive (initialView 4)
              (Doc.mkLine 0 15 1 (Js.lit "## Hola Heading")) l ->
            ~ Regex.InLanguage headingRe (Doc.text l)).
Proof.
  split.
  - exact (proj1 (@heading_throws_iff (initialView 20)
                    (Doc.mkLine 17 36 3 (Js.lit "- [ ] Comprar leche"))
                    eq_refl eq_refl)).
  - exact (proj2 (@heading_throws_iff (initialView 4)
                    (Doc.mkLine 0 15 1 (Js.lit "## Hola Heading"))
                    eq_refl eq_refl)).
Defined.
